(** * The QEMU protocol driver (src/qemu_internal.c)

    A shallow embedding of the client side of the qemud protocol: the
    connection retry loop, the blocking request/reply transactor and the
    driver entry points that sit on top of it.

    The C functions are stateful; every system call and every call into the
    rest of libvirt is recorded as an [event], and a function of the driver
    maps the list of events so far (the [trace]) to its result and the
    extended trace.  What the outside world answers is given by an [env],
    whose oracles may depend on the whole history. *)

From Stdlib Require Import ZArith Strings.Byte String.
From stdpp Require Import base tactics option list numbers.
From Equations Require Import Equations.

Set Warnings "-abstract-large-number".

Local Open Scope Z_scope.

(** ** C data *)

(** A C string, without its terminating NUL. *)
Abbreviation cstring := (list byte).

Definition cstr (s : string) : cstring := list_byte_of_string s.

(** Conversion to [int] (32 bits, two's complement).  Converting a value
    that does not fit is implementation-defined; it wraps modulo 2^32 on
    the compilers libvirt is built with. *)
Definition to_int (z : Z) : Z := (z + 2 ^ 31) mod 2 ^ 32 - 2 ^ 31.

(** [strlen], a [size_t]. *)
Definition strlen (s : cstring) : Z := Z.of_nat (length s).

(** The string held by a char array: the bytes before the first NUL. *)
Fixpoint c_str (a : list byte) : cstring :=
  match a with
  | [] => []
  | c :: a' => if Byte.eqb c x00 then [] else c :: c_str a'
  end.

(** A store past the end of an object has no defined behaviour; the
    functions that write through caller-supplied bounds report it. *)
Inductive outcome (A : Type) : Type :=
| Returns (a : A)
| Overrun.
Arguments Returns {A} a.
Arguments Overrun {A}.

(** ** Packets in memory

    [struct qemud_packet] is read from and written to the socket as raw
    memory ([(char * )req], [(char * )reply]), so a packet is its object
    representation.  Integers are in host byte order, least significant
    byte first. *)
Abbreviation packet := (list byte).

Definition byte_val (b : byte) : Z := Z.of_N (Byte.to_N b).

Definition byte_of_Z (z : Z) : byte :=
  default x00 (Byte.of_N (Z.to_N (z mod 256))).

(** The byte at offset [i]; outside the object the model reads zero. *)
Definition byte_at (p : packet) (i : nat) : Z :=
  from_option byte_val 0 (p !! i).

Definition load_u32 (p : packet) (off : nat) : Z :=
  byte_at p off + 2 ^ 8 * byte_at p (off + 1)
  + 2 ^ 16 * byte_at p (off + 2) + 2 ^ 24 * byte_at p (off + 3).

Definition load_u64 (p : packet) (off : nat) : Z :=
  load_u32 p off + 2 ^ 32 * load_u32 p (off + 4).

Definition load_bytes (p : packet) (off len : nat) : list byte :=
  take len (drop off p).

Definition store_bytes (p : packet) (off : nat) (bs : list byte) : packet :=
  list_inserts off bs p.

(** The four bytes of a 32-bit integer. *)
Definition le32 (v : Z) : list byte :=
  [byte_of_Z v; byte_of_Z (v / 2 ^ 8); byte_of_Z (v / 2 ^ 16);
   byte_of_Z (v / 2 ^ 24)].

Definition store_u32 (p : packet) (off : nat) (v : Z) : packet :=
  store_bytes p off (le32 v).

(** [strcpy] into a char array of [cap] bytes at offset [off]. *)
Definition strcpy (p : packet) (off cap : nat) (s : cstring) : outcome packet :=
  if decide (length s < cap)%nat
  then Returns (store_bytes p off (s ++ [x00]))
  else Overrun.

(** ** What the absent headers declare

    [protocol.h], [internal.h] and the system headers are not part of the
    sources.  The driver only depends on the names below; their values and
    the layout of the packet are parameters of the development. *)

Inductive qemud_packet_type :=
| QEMUD_PKT_FAILURE
| QEMUD_PKT_LIST_DOMAINS
| QEMUD_PKT_DOMAIN_CREATE
| QEMUD_PKT_DOMAIN_DESTROY
| QEMUD_PKT_DOMAIN_GET_INFO
| QEMUD_PKT_LIST_DEFINED_DOMAINS
| QEMUD_PKT_DOMAIN_DEFINE
| QEMUD_PKT_DOMAIN_UNDEFINE
| QEMUD_PKT_LIST_NETWORKS
| QEMUD_PKT_LIST_DEFINED_NETWORKS
| QEMUD_PKT_NETWORK_UNDEFINE.

(** The members of [struct qemud_packet] the driver names. *)
Inductive field :=
| header_type
| header_dataSize
| failureReply_code
| failureReply_message
| listDomainsReply_numDomains
| listDomainsReply_domains
| listDefinedDomainsReply_numDomains
| listDefinedDomainsReply_domains
| listNetworksReply_numNetworks
| listNetworksReply_networks
| listDefinedNetworksReply_numNetworks
| listDefinedNetworksReply_networks
| domainCreateRequest_xml
| domainCreateReply_name
| domainCreateReply_uuid
| domainCreateReply_id
| domainDefineRequest_xml
| domainDefineReply_name
| domainDefineReply_uuid
| domainDestroyRequest_id
| domainGetInfoRequest_uuid
| domainGetInfoReply_runstate
| domainGetInfoReply_maxmem
| domainGetInfoReply_memory
| domainGetInfoReply_nrVirtCpu
| domainGetInfoReply_cpuTime
| domainUndefineRequest_uuid
| networkUndefineRequest_uuid.

(** The request structs whose [sizeof] the driver takes. *)
Inductive request_struct :=
| domainCreateRequest
| domainDefineRequest
| domainDestroyRequest
| domainGetInfoRequest
| domainUndefineRequest
| networkUndefineRequest.

Record headers := {
  (* protocol.h *)
  sizeof_header : nat;           (* sizeof(struct qemud_packet_header) *)
  sizeof_data : nat;             (* sizeof(union qemud_packet_data) *)
  sizeof_request : request_struct -> nat;
  offsetof : field -> nat;
  pkt_code : qemud_packet_type -> Z;
  QEMUD_MAX_XML_LEN : nat;
  QEMUD_MAX_NAME_LEN : nat;
  QEMUD_MAX_ERROR_LEN : nat;
  QEMUD_UUID_RAW_LEN : nat;
  QEMUD_STATE_RUNNING : Z;
  QEMUD_STATE_PAUSED : Z;
  QEMUD_STATE_STOPPED : Z;
  (* virterror.h *)
  VIR_ERR_OK : Z;
  VIR_ERR_INTERNAL_ERROR : Z;
  (* config.h, sys/un.h *)
  BINDIR : string;
  sizeof_sun_path : nat;
  (* enumerators of one enum are distinct: the [switch] of
     [qemuGetDomainInfo] would not compile otherwise *)
  runstates_distinct :
    NoDup [QEMUD_STATE_RUNNING; QEMUD_STATE_PAUSED; QEMUD_STATE_STOPPED];
  internal_error_not_ok : VIR_ERR_INTERNAL_ERROR <> VIR_ERR_OK;
  pkt_code_range : forall ty, 0 <= pkt_code ty < 2 ^ 32;
  (* the two 32-bit members of the header lie inside it, apart from each
     other; the members of the union come after the header and those of a
     request inside the request; a packet is far smaller than 2^31 bytes *)
  header_type_inside : (offsetof header_type + 4 <= sizeof_header)%nat;
  header_dataSize_inside : (offsetof header_dataSize + 4 <= sizeof_header)%nat;
  header_members_apart :
    (offsetof header_type + 4 <= offsetof header_dataSize
     \/ offsetof header_dataSize + 4 <= offsetof header_type)%nat;
  members_after_header :
    forall f, f <> header_type -> f <> header_dataSize ->
    (sizeof_header <= offsetof f)%nat;
  destroy_id_inside :
    (offsetof domainDestroyRequest_id + 4
     <= sizeof_header + sizeof_request domainDestroyRequest)%nat;
  requests_fit : forall s, (sizeof_request s <= sizeof_data)%nat;
  packet_fits_int : Z.of_nat (sizeof_header + sizeof_data) < 2 ^ 31
}.

Definition sizeof_packet (H : headers) : nat :=
  (sizeof_header H + sizeof_data H)%nat.

(** ** Handles *)

Record virConnect := { qemud_fd : Z }.

Record virDomain := {
  dom_conn : virConnect;
  dom_name : cstring;
  dom_uuid : list byte;
  dom_id : Z
}.

Record virNetwork := {
  net_conn : virConnect;
  net_name : cstring;
  net_uuid : list byte
}.

(** [virDomainState] of libvirt.h; [memset(info, 0, ...)] leaves
    [VIR_DOMAIN_NOSTATE], its first enumerator. *)
Inductive virDomainState :=
| VIR_DOMAIN_NOSTATE
| VIR_DOMAIN_RUNNING
| VIR_DOMAIN_BLOCKED
| VIR_DOMAIN_PAUSED
| VIR_DOMAIN_SHUTDOWN
| VIR_DOMAIN_SHUTOFF
| VIR_DOMAIN_CRASHED.

Record virDomainInfo := {
  state : virDomainState;
  maxMem : Z;
  memory : Z;
  nrVirtCpu : Z;
  cpuTime : Z
}.

(** ** The outside world *)

Inductive event :=
| EvSocket (fd : Z)
| EvConnect (fd : Z) (sun_path : list byte) (ret : Z)
| EvClose (fd : Z)
| EvForkServer (proxyPath : option cstring)
| EvUsleep (usec : Z)
| EvWrite (fd : Z) (buf : list byte) (got : option nat)
| EvRead (fd : Z) (count : nat) (done : option (list byte))
| EvRaiseError (error : Z) (info : option cstring)
| EvGetDomain (name : cstring) (uuid : list byte) (ok : bool)
| EvFreeDomain (dom : virDomain) (ret : Z)
| EvFreeNetwork (net : virNetwork) (ret : Z).

Abbreviation trace := (list event).

(** [write] on a blocking socket either fails or takes at least one byte;
    [WriteAccepts k] takes one byte and up to [k] more. *)
Inductive write_result :=
| WriteError
| WriteAccepts (k : nat).

(** [read] either fails or hands over what the peer has sent, cut to the
    requested count; nothing at all means the peer closed. *)
Inductive read_result :=
| ReadError
| ReadBytes (bs : list byte).

Record env := {
  env_socket : trace -> Z;
  env_connect : trace -> Z -> list byte -> Z;
  env_getenv : trace -> cstring -> option cstring;
  env_access : trace -> cstring -> bool;
  env_write : trace -> Z -> list byte -> write_result;
  env_read : trace -> Z -> nat -> read_result;
  env_virGetDomain : trace -> cstring -> list byte -> bool;
  env_virFreeDomain : trace -> virDomain -> Z;
  env_virFreeNetwork : trace -> virNetwork -> Z;
  (* the indeterminate contents of the automatic variables [req], [reply] *)
  env_auto_req : packet;
  env_auto_reply : packet
}.

(** ** The driver *)

Section Driver.

Context (hd : headers) (E : env).

(** *** Errors *)

Definition qemuError (con : virConnect) (dom : option virDomain)
    (error : Z) (info : option cstring) (t : trace) : trace :=
  if decide (error = VIR_ERR_OK hd) then t
  else t ++ [EvRaiseError error info].

(** [pkt->data.failureReply.message[QEMUD_MAX_ERROR_LEN-1] = 0], done when
    the message is not empty. *)
Definition terminate_failure_message (pkt : packet) : packet :=
  let message := offsetof hd failureReply_message in
  if decide (byte_at pkt message = 0) then pkt
  else store_bytes pkt (message + (QEMUD_MAX_ERROR_LEN hd - 1)) [x00].

(** [pkt->data.failureReply.code] *)
Definition failure_code (pkt : packet) : Z :=
  load_u32 pkt (offsetof hd failureReply_code).

(** [message[0] ? message : NULL] *)
Definition failure_info (pkt : packet) : option cstring :=
  let message := offsetof hd failureReply_message in
  if decide (byte_at pkt message = 0) then None
  else Some (c_str (load_bytes pkt message (QEMUD_MAX_ERROR_LEN hd))).

(** The packet comes back because the failure branch writes to it. *)
Definition qemuPacketError (con : virConnect) (dom : option virDomain)
    (pkt : option packet) (t : trace) : option packet * trace :=
  match pkt with
  | None =>
      (None,
       qemuError con dom (VIR_ERR_INTERNAL_ERROR hd)
         (Some (cstr "Malformed data packet")) t)
  | Some p =>
      if decide (load_u32 p (offsetof hd header_type)
                 = pkt_code hd QEMUD_PKT_FAILURE)
      then
        let p' := terminate_failure_message p in
        (Some p', qemuError con dom (failure_code p') (failure_info p') t)
      else
        (Some p,
         qemuError con dom (VIR_ERR_INTERNAL_ERROR hd)
           (Some (cstr "Incorrect reply type")) t)
  end.

(** *** Starting the daemon *)

Definition serverPaths : list cstring :=
  [cstr (BINDIR hd ++ "/libvirt_qemu");
   cstr (BINDIR hd ++ "/libvirt_qemu_dbg")].

Definition qemuFindServerPath (t : trace) : option cstring :=
  match env_getenv E t (cstr "LIBVIRT_QEMU_SERVER") with
  | Some debugQemu => Some debugQemu
  | None => List.find (env_access E t) serverPaths
  end.

(** The fork of the intermediate process, the exec of the daemon in its
    child and the [waitpid] are one event; the parent returns 0 whatever
    became of them. *)
Definition qemuForkServer (t : trace) : Z * trace :=
  match qemuFindServerPath t with
  | None => (-1, t ++ [EvForkServer None])
  | Some proxyPath => (0, t ++ [EvForkServer (Some proxyPath)])
  end.

(** *** Connecting *)

(** [addr.sun_path] after the [strncpy] and the rewrite of a leading '@'. *)
Definition sun_path_of (path : cstring) : list byte :=
  match take (sizeof_sun_path hd - 1) path with
  | c :: rest => if Byte.eqb c "@" then x00 :: rest else c :: rest
  | [] => []
  end.

(** The body of [qemuOpenClientUNIX] from the label [retry] on. *)
Equations? qemuOpenClientUNIX_retry (conn : virConnect) (path : cstring)
    (autostart : Z) (trials : Z) (t : trace) : Z * virConnect * trace
    by wf (Z.to_nat (3 - trials)) lt :=
  qemuOpenClientUNIX_retry conn path autostart trials t :=
    let fd := env_socket E t in
    let t1 := t ++ [EvSocket fd] in
    if decide (fd < 0) then (-1, conn, t1)
    else
      let r := env_connect E t1 fd (sun_path_of path) in
      let t2 := t1 ++ [EvConnect fd (sun_path_of path) r] in
      if decide (r < 0) then
        let t3 := t2 ++ [EvClose fd] in
        match decide (autostart <> 0 /\ trials < 3) with
        | left _ =>
            let forked := qemuForkServer t3 in
            if decide (forked.1 < 0) then (-1, conn, forked.2)
            else
              qemuOpenClientUNIX_retry conn path autostart (trials + 1)
                (forked.2 ++ [EvUsleep (5000 * (trials + 1) * (trials + 1))])
        | right _ => (-1, conn, t3)
        end
      else (0, {| qemud_fd := fd |}, t2).
Proof. lia. Qed.

Definition qemuOpenClientUNIX (conn : virConnect) (path : cstring)
    (autostart : Z) (t : trace) : Z * virConnect * trace :=
  qemuOpenClientUNIX_retry conn path autostart 0 t.

Definition qemuClose (conn : virConnect) (t : trace)
    : Z * virConnect * trace :=
  if decide (qemud_fd conn <> -1)
  then (0, {| qemud_fd := -1 |}, t ++ [EvClose (qemud_fd conn)])
  else (0, conn, t).

(** *** The transactor *)

(** [while (outLeft)] over the bytes of the request still to send. *)
Equations? write_loop (fd : Z) (out : list byte) (t : trace) : bool * trace
    by wf (length out) lt :=
  write_loop fd [] t := (true, t);
  write_loop fd (b :: out') t with env_write E t fd (b :: out') := {
    | WriteError := (false, t ++ [EvWrite fd (b :: out') None]);
    | WriteAccepts k :=
        write_loop fd (drop k out')
          (t ++ [EvWrite fd (b :: out') (Some (S (k `min` length out')))]) }.
Proof. rewrite length_drop. simpl. lia. Qed.

(** [while (inLeft)] storing what arrives at [in + inGot]. *)
Equations? read_loop (fd : Z) (inLeft : nat) (reply : packet) (inGot : nat)
    (t : trace) : bool * packet * trace by wf inLeft lt :=
  read_loop fd 0 reply inGot t := (true, reply, t);
  read_loop fd (S n) reply inGot t with env_read E t fd (S n) := {
    | ReadError := (false, reply, t ++ [EvRead fd (S n) None]);
    | ReadBytes bs with take (S n) bs := {
      | [] := (false, reply, t ++ [EvRead fd (S n) (Some [])]);
      | c :: cs :=
          read_loop fd (n - length cs) (store_bytes reply inGot (c :: cs))
            (inGot + S (length cs))
            (t ++ [EvRead fd (S n) (Some (c :: cs))]) } }.
Proof. lia. Qed.

(** [int outLeft = sizeof(struct qemud_packet_header) + req->header.dataSize],
    the number of bytes of the request object that are sent.  Every caller
    in the driver sets [dataSize] to 0 or to the size of a request struct,
    so they lie inside [req]. *)
Definition outLeft (req : packet) : nat :=
  Z.to_nat (to_int (Z.of_nat (sizeof_header hd)
                    + load_u32 req (offsetof hd header_dataSize))).

(** [qemuProcessRequest] sends [req] and fills [reply], the caller's
    buffer. *)
Definition qemuProcessRequest (conn : virConnect) (dom : option virDomain)
    (req reply : packet) (t : trace) : Z * packet * trace :=
  match write_loop (qemud_fd conn) (take (outLeft req) req) t with
  | (false, t1) => (-1, reply, t1)
  | (true, t1) =>
    match read_loop (qemud_fd conn) (sizeof_header hd) reply 0 t1 with
    | (false, reply1, t2) => (-1, reply1, t2)
    | (true, reply1, t2) =>
      let dataSize := load_u32 reply1 (offsetof hd header_dataSize) in
      if decide (dataSize > Z.of_nat (sizeof_data hd)) then
        (-1, reply1, snd (qemuPacketError conn dom None t2))
      else
        match read_loop (qemud_fd conn) (Z.to_nat dataSize) reply1
                (sizeof_header hd) t2 with
        | (false, reply2, t3) => (-1, reply2, t3)
        | (true, reply2, t3) =>
          if decide (load_u32 reply2 (offsetof hd header_type)
                     <> load_u32 req (offsetof hd header_type))
          then
            let '(pkt, t4) := qemuPacketError conn dom (Some reply2) t3 in
            (-1, default reply2 pkt, t4)
          else (0, reply2, t3)
        end
    end
  end.

(** *** Requests *)

(** The automatic variables [req] and [reply] of a driver function. *)
Definition auto_req : packet :=
  resize (sizeof_packet hd) x00 (env_auto_req E).

Definition auto_reply : packet :=
  resize (sizeof_packet hd) x00 (env_auto_reply E).

(** [req.header.type = ty; req.header.dataSize = size;] *)
Definition set_header (req : packet) (ty : qemud_packet_type) (size : nat)
    : packet :=
  store_u32 (store_u32 req (offsetof hd header_type) (pkt_code hd ty))
    (offsetof hd header_dataSize) (Z.of_nat size).

(** A request that carries a UUID: the header, then the [memcpy] or
    [memmove] of [QEMUD_UUID_RAW_LEN] bytes into member [f]. *)
Definition uuid_request (ty : qemud_packet_type) (s : request_struct)
    (f : field) (uuid : list byte) : packet :=
  store_bytes (set_header auto_req ty (sizeof_request hd s)) (offsetof hd f)
    (take (QEMUD_UUID_RAW_LEN hd) uuid).

(** The request of [qemuDestroyDomain]: the header, then
    [req.data.domainDestroyRequest.id = domain->id]. *)
Definition destroy_request (domain : virDomain) : packet :=
  store_u32
    (set_header auto_req QEMUD_PKT_DOMAIN_DESTROY
       (sizeof_request hd domainDestroyRequest))
    (offsetof hd domainDestroyRequest_id) (dom_id domain).

(** [for (i = 0; i < n; i++) arr[i] = elem i;] with [n - i] iterations to
    go; [arr] is the caller's array. *)
Fixpoint fill {A : Type} (elem : nat -> A) (togo i : nat) (arr : list A)
    : outcome (list A) :=
  match togo with
  | O => Returns arr
  | S togo' =>
      if decide (i < length arr)%nat
      then fill elem togo' (S i) (<[i := elem i]> arr)
      else Overrun
  end.

(** Entry [i] of an array of names in the reply, terminated in place and
    duplicated. *)
Definition name_at (reply : packet) (f : field) (i : nat) : cstring :=
  let len := QEMUD_MAX_NAME_LEN hd in
  c_str (<[(len - 1)%nat := x00]>
           (load_bytes reply (offsetof hd f + len * i) len)).

(** *** Listing *)

(** [reply.data.listDomainsReply.domains[i]] *)
Definition reply_domain (reply : packet) (i : nat) : Z :=
  to_int (load_u32 reply (offsetof hd listDomainsReply_domains + 4 * i)).

Definition qemuListDomains (conn : virConnect) (ids : list Z) (maxids : Z)
    (t : trace) : outcome (Z * list Z) * trace :=
  let req := set_header auto_req QEMUD_PKT_LIST_DOMAINS 0 in
  let '(r, reply, t') := qemuProcessRequest conn None req auto_reply t in
  if decide (r < 0) then (Returns (-1, ids), t')
  else
    let nDomains :=
      to_int (load_u32 reply (offsetof hd listDomainsReply_numDomains)) in
    let nDomains := if decide (nDomains > maxids) then maxids else nDomains in
    match fill (reply_domain reply) (Z.to_nat nDomains) 0 ids with
    | Returns ids' => (Returns (nDomains, ids'), t')
    | Overrun => (Overrun, t')
    end.

Definition qemuListDefinedDomains (conn : virConnect) (names : list cstring)
    (maxnames : Z) (t : trace) : outcome (Z * list cstring) * trace :=
  let req := set_header auto_req QEMUD_PKT_LIST_DEFINED_DOMAINS 0 in
  let '(r, reply, t') := qemuProcessRequest conn None req auto_reply t in
  if decide (r < 0) then (Returns (-1, names), t')
  else
    let nDomains :=
      to_int (load_u32 reply
                (offsetof hd listDefinedDomainsReply_numDomains)) in
    let nDomains :=
      if decide (nDomains > maxnames) then maxnames else nDomains in
    match fill (name_at reply listDefinedDomainsReply_domains)
            (Z.to_nat nDomains) 0 names with
    | Returns names' => (Returns (nDomains, names'), t')
    | Overrun => (Overrun, t')
    end.

Definition qemuListNetworks (conn : virConnect) (names : list cstring)
    (maxnames : Z) (t : trace) : outcome (Z * list cstring) * trace :=
  let req := set_header auto_req QEMUD_PKT_LIST_NETWORKS 0 in
  let '(r, reply, t') := qemuProcessRequest conn None req auto_reply t in
  if decide (r < 0) then (Returns (-1, names), t')
  else
    let nNetworks :=
      to_int (load_u32 reply (offsetof hd listNetworksReply_numNetworks)) in
    if decide (nNetworks > maxnames) then (Returns (-1, names), t')
    else
      match fill (name_at reply listNetworksReply_networks)
              (Z.to_nat nNetworks) 0 names with
      | Returns names' => (Returns (nNetworks, names'), t')
      | Overrun => (Overrun, t')
      end.

Definition qemuListDefinedNetworks (conn : virConnect) (names : list cstring)
    (maxnames : Z) (t : trace) : outcome (Z * list cstring) * trace :=
  let req := set_header auto_req QEMUD_PKT_LIST_DEFINED_NETWORKS 0 in
  let '(r, reply, t') := qemuProcessRequest conn None req auto_reply t in
  if decide (r < 0) then (Returns (-1, names), t')
  else
    let nNetworks :=
      to_int (load_u32 reply
                (offsetof hd listDefinedNetworksReply_numNetworks)) in
    if decide (nNetworks > maxnames) then (Returns (-1, names), t')
    else
      match fill (name_at reply listDefinedNetworksReply_networks)
              (Z.to_nat nNetworks) 0 names with
      | Returns names' => (Returns (nNetworks, names'), t')
      | Overrun => (Overrun, t')
      end.

(** *** Domains *)

(** Modelled from the spec: [virGetDomain] (hash.c) is not among the
    sources.  A handle is created locally from a reply and carries the
    name and the UUID it was asked for; the id of a domain that is not
    running is -1.  The allocation may fail. *)
Definition virGetDomain (conn : virConnect) (name : cstring)
    (uuid : list byte) (t : trace) : option virDomain * trace :=
  let ok := env_virGetDomain E t name uuid in
  ((if ok
    then Some {| dom_conn := conn; dom_name := name; dom_uuid := uuid;
                 dom_id := -1 |}
    else None),
   t ++ [EvGetDomain name uuid ok]).

(** Modelled from the spec: [virFreeDomain] and [virFreeNetwork] (hash.c)
    are not among the sources.  They release the local handle and report a
    negative value when that fails. *)
Definition virFreeDomain (conn : virConnect) (dom : virDomain) (t : trace)
    : Z * trace :=
  let ret := env_virFreeDomain E t dom in (ret, t ++ [EvFreeDomain dom ret]).

Definition virFreeNetwork (conn : virConnect) (net : virNetwork) (t : trace)
    : Z * trace :=
  let ret := env_virFreeNetwork E t net in (ret, t ++ [EvFreeNetwork net ret]).

(** [set_id dom id] is [dom->id = id]. *)
Definition set_id (dom : virDomain) (id : Z) : virDomain :=
  {| dom_conn := dom_conn dom; dom_name := dom_name dom;
     dom_uuid := dom_uuid dom; dom_id := id |}.

(** The name held by a reply, terminated in place at the last byte of its
    array. *)
Definition reply_name (reply : packet) (f : field) : cstring :=
  name_at reply f 0.

Definition qemuDomainCreateLinux (conn : virConnect) (xmlDesc : cstring)
    (flags : Z) (t : trace) : outcome (option virDomain) * trace :=
  let len := to_int (strlen xmlDesc) in
  if decide (len > Z.of_nat (QEMUD_MAX_XML_LEN hd) - 1) then (Returns None, t)
  else
    let req :=
      set_header auto_req QEMUD_PKT_DOMAIN_CREATE
        (sizeof_request hd domainCreateRequest) in
    match strcpy req (offsetof hd domainCreateRequest_xml)
            (QEMUD_MAX_XML_LEN hd) xmlDesc with
    | Overrun => (Overrun, t)
    | Returns req =>
      let req :=
        store_bytes req
          (offsetof hd domainCreateRequest_xml + (QEMUD_MAX_XML_LEN hd - 1))
          [x00] in
      let '(r, reply, t1) := qemuProcessRequest conn None req auto_reply t in
      if decide (r < 0) then (Returns None, t1)
      else
        match virGetDomain conn (reply_name reply domainCreateReply_name)
                (load_bytes reply (offsetof hd domainCreateReply_uuid)
                   (QEMUD_UUID_RAW_LEN hd)) t1 with
        | (None, t2) => (Returns None, t2)
        | (Some dom, t2) =>
            (Returns
               (Some (set_id dom
                        (to_int (load_u32 reply
                                   (offsetof hd domainCreateReply_id))))),
             t2)
        end
    end.

Definition qemuDestroyDomain (domain : virDomain) (t : trace) : Z * trace :=
  let req := destroy_request domain in
  let '(r, _, t') :=
    qemuProcessRequest (dom_conn domain) None req auto_reply t in
  if decide (r < 0) then (-1, t') else (0, t').

Definition qemuShutdownDomain (domain : virDomain) (t : trace) : Z * trace :=
  qemuDestroyDomain domain t.

(** [memset(info, 0, sizeof(virDomainInfo))] *)
Definition cleared_info : virDomainInfo :=
  {| state := VIR_DOMAIN_NOSTATE; maxMem := 0; memory := 0;
     nrVirtCpu := 0; cpuTime := 0 |}.

(** [info] is the caller's struct; it is cleared once the reply is in.
    [nrVirtCpu] is an [unsigned short]. *)
Definition qemuGetDomainInfo (domain : virDomain) (info : virDomainInfo)
    (t : trace) : Z * virDomainInfo * trace :=
  let req :=
    uuid_request QEMUD_PKT_DOMAIN_GET_INFO domainGetInfoRequest
      domainGetInfoRequest_uuid (dom_uuid domain) in
  let '(r, reply, t') :=
    qemuProcessRequest (dom_conn domain) None req auto_reply t in
  if decide (r < 0) then (-1, info, t')
  else
    let runstate := load_u32 reply (offsetof hd domainGetInfoReply_runstate) in
    let with_state st :=
      (0,
       {| state := st;
          maxMem := load_u32 reply (offsetof hd domainGetInfoReply_maxmem);
          memory := load_u32 reply (offsetof hd domainGetInfoReply_memory);
          nrVirtCpu :=
            load_u32 reply (offsetof hd domainGetInfoReply_nrVirtCpu)
            mod 2 ^ 16;
          cpuTime := load_u64 reply (offsetof hd domainGetInfoReply_cpuTime) |},
       t') in
    if decide (runstate = QEMUD_STATE_RUNNING hd)
    then with_state VIR_DOMAIN_RUNNING
    else if decide (runstate = QEMUD_STATE_PAUSED hd)
    then with_state VIR_DOMAIN_PAUSED
    else if decide (runstate = QEMUD_STATE_STOPPED hd)
    then with_state VIR_DOMAIN_SHUTOFF
    else (-1, cleared_info, t').

Definition qemuDomainDefineXML (conn : virConnect) (xml : cstring)
    (t : trace) : outcome (option virDomain) * trace :=
  let len := to_int (strlen xml) in
  if decide (len > Z.of_nat (QEMUD_MAX_XML_LEN hd) - 1) then (Returns None, t)
  else
    let req :=
      set_header auto_req QEMUD_PKT_DOMAIN_DEFINE
        (sizeof_request hd domainDefineRequest) in
    match strcpy req (offsetof hd domainDefineRequest_xml)
            (QEMUD_MAX_XML_LEN hd) xml with
    | Overrun => (Overrun, t)
    | Returns req =>
      let req :=
        store_bytes req
          (offsetof hd domainDefineRequest_xml + (QEMUD_MAX_XML_LEN hd - 1))
          [x00] in
      let '(r, reply, t1) := qemuProcessRequest conn None req auto_reply t in
      if decide (r < 0) then (Returns None, t1)
      else
        match virGetDomain conn (reply_name reply domainDefineReply_name)
                (load_bytes reply (offsetof hd domainDefineReply_uuid)
                   (QEMUD_UUID_RAW_LEN hd)) t1 with
        | (None, t2) => (Returns None, t2)
        | (Some dom, t2) => (Returns (Some (set_id dom (-1))), t2)
        end
    end.

Definition qemuUndefine (dom : virDomain) (t : trace) : Z * trace :=
  let req :=
    uuid_request QEMUD_PKT_DOMAIN_UNDEFINE domainUndefineRequest
      domainUndefineRequest_uuid (dom_uuid dom) in
  let '(r, _, t1) := qemuProcessRequest (dom_conn dom) None req auto_reply t in
  let ret := if decide (r < 0) then -1 else 0 in
  (* cleanup: *)
  let '(freed, t2) := virFreeDomain (dom_conn dom) dom t1 in
  (if decide (freed < 0) then -1 else ret, t2).

(** *** Networks *)

Definition qemuNetworkUndefine (network : virNetwork) (t : trace)
    : Z * trace :=
  let req :=
    uuid_request QEMUD_PKT_NETWORK_UNDEFINE networkUndefineRequest
      networkUndefineRequest_uuid (net_uuid network) in
  let '(r, _, t1) :=
    qemuProcessRequest (net_conn network) None req auto_reply t in
  let ret := if decide (r < 0) then -1 else 0 in
  (* cleanup: *)
  let '(freed, t2) := virFreeNetwork (net_conn network) network t1 in
  (if decide (freed < 0) then -1 else ret, t2).

End Driver.

(** ** Observations on traces *)

(** The call behind an event, without what the outside world answered. *)
Inductive call :=
| CallSocket
| CallConnect
| CallClose
| CallForkServer
| CallUsleep (usec : Z)
| CallWrite
| CallRead
| CallRaiseError
| CallGetDomain
| CallFreeDomain
| CallFreeNetwork.

Definition call_of (e : event) : call :=
  match e with
  | EvSocket _ => CallSocket
  | EvConnect _ _ _ => CallConnect
  | EvClose _ => CallClose
  | EvForkServer _ => CallForkServer
  | EvUsleep usec => CallUsleep usec
  | EvWrite _ _ _ => CallWrite
  | EvRead _ _ _ => CallRead
  | EvRaiseError _ _ => CallRaiseError
  | EvGetDomain _ _ _ => CallGetDomain
  | EvFreeDomain _ _ => CallFreeDomain
  | EvFreeNetwork _ _ => CallFreeNetwork
  end.

(** One round of [qemuOpenClientUNIX] that fails to connect. *)
Definition failed_connect : list call := [CallSocket; CallConnect; CallClose].

(** The [k]-th round that fails to connect, starts the daemon and sleeps. *)
Definition failed_round (k : Z) : list call :=
  failed_connect ++ [CallForkServer; CallUsleep (5000 * k * k)].

Definition is_fork (e : event) : bool :=
  match e with EvForkServer _ => true | _ => false end.

Definition is_write (e : event) : bool :=
  match e with EvWrite _ _ _ => true | _ => false end.

Definition is_close (e : event) : bool :=
  match e with EvClose _ => true | _ => false end.

Definition is_raise (e : event) : bool :=
  match e with EvRaiseError _ _ => true | _ => false end.

Definition is_free (e : event) : bool :=
  match e with EvFreeDomain _ _ | EvFreeNetwork _ _ => true | _ => false end.

(** The exchange of bytes with the daemon and the errors it raises. *)
Definition is_exchange (e : event) : bool :=
  match e with
  | EvWrite _ _ _ | EvRead _ _ _ | EvRaiseError _ _ => true
  | _ => false
  end.

Definition is_read (e : event) : bool :=
  match e with EvRead _ _ _ => true | _ => false end.

Definition count (p : event -> bool) (t : trace) : nat :=
  length (List.filter p t).
Arguments count p !t /.

(** [t'] continues [t] with events of the kind [p] only. *)
Definition grows (p : event -> bool) (t t' : trace) : Prop :=
  exists d, t' = t ++ d /\ Forall (fun e => p e = true) d.

(** The arguments of the calls to [usleep], in order. *)
Definition sleeps (t : trace) : list Z :=
  omap (fun e => match e with EvUsleep us => Some us | _ => None end) t.

(** The errors raised, in order. *)
Definition raised (t : trace) : list (Z * option cstring) :=
  omap (fun e => match e with
                 | EvRaiseError error info => Some (error, info)
                 | _ => None
                 end) t.

(** The number of bytes received from the daemon. *)
Definition received (e : event) : nat :=
  match e with EvRead _ _ (Some chunk) => length chunk | _ => 0%nat end.

Definition bytes_read (t : trace) : nat := sum_list_with received t.
Arguments bytes_read !t /.

(** ** An instance of the parameters

    One set of values for the examples, after libvirt's protocol.h of the
    time: a header of two 32-bit words, documents of up to 4096 bytes,
    names of up to 50, messages of up to 1024, and the members of each
    struct one after the other from the start of the union, which comes
    right after the header.  No theorem of the development depends on
    these values. *)

Definition qemud_offsetof (f : field) : nat :=
  match f with
  | header_type => 0
  | header_dataSize => 4
  | failureReply_code => 8
  | failureReply_message => 12
  | listDomainsReply_numDomains => 8
  | listDomainsReply_domains => 12
  | listDefinedDomainsReply_numDomains => 8
  | listDefinedDomainsReply_domains => 12
  | listNetworksReply_numNetworks => 8
  | listNetworksReply_networks => 12
  | listDefinedNetworksReply_numNetworks => 8
  | listDefinedNetworksReply_networks => 12
  | domainCreateRequest_xml => 8
  | domainCreateReply_id => 8
  | domainCreateReply_uuid => 12
  | domainCreateReply_name => 28
  | domainDefineRequest_xml => 8
  | domainDefineReply_uuid => 8
  | domainDefineReply_name => 24
  | domainDestroyRequest_id => 8
  | domainGetInfoRequest_uuid => 8
  | domainGetInfoReply_cpuTime => 8
  | domainGetInfoReply_runstate => 16
  | domainGetInfoReply_memory => 20
  | domainGetInfoReply_maxmem => 24
  | domainGetInfoReply_nrVirtCpu => 28
  | domainUndefineRequest_uuid => 8
  | networkUndefineRequest_uuid => 8
  end.

Definition qemud_sizeof_request (s : request_struct) : nat :=
  match s with
  | domainCreateRequest | domainDefineRequest => 4096
  | domainDestroyRequest => 4
  | domainGetInfoRequest | domainUndefineRequest | networkUndefineRequest => 16
  end.

Definition qemud_pkt_code (ty : qemud_packet_type) : Z :=
  match ty with
  | QEMUD_PKT_FAILURE => 0
  | QEMUD_PKT_LIST_DOMAINS => 3
  | QEMUD_PKT_DOMAIN_CREATE => 5
  | QEMUD_PKT_DOMAIN_DESTROY => 11
  | QEMUD_PKT_DOMAIN_GET_INFO => 12
  | QEMUD_PKT_LIST_DEFINED_DOMAINS => 16
  | QEMUD_PKT_DOMAIN_DEFINE => 19
  | QEMUD_PKT_DOMAIN_UNDEFINE => 20
  | QEMUD_PKT_LIST_NETWORKS => 22
  | QEMUD_PKT_LIST_DEFINED_NETWORKS => 24
  | QEMUD_PKT_NETWORK_UNDEFINE => 29
  end.

Definition qemud_headers : headers := {|
  sizeof_header := 8;
  sizeof_data := 5004;
  sizeof_request := qemud_sizeof_request;
  offsetof := qemud_offsetof;
  pkt_code := qemud_pkt_code;
  QEMUD_MAX_XML_LEN := 4096;
  QEMUD_MAX_NAME_LEN := 50;
  QEMUD_MAX_ERROR_LEN := 1024;
  QEMUD_UUID_RAW_LEN := 16;
  QEMUD_STATE_RUNNING := 1;
  QEMUD_STATE_PAUSED := 2;
  QEMUD_STATE_STOPPED := 3;
  VIR_ERR_OK := 0;
  VIR_ERR_INTERNAL_ERROR := 1;
  BINDIR := "/usr/bin";
  sizeof_sun_path := 108;
  runstates_distinct := ltac:(apply (bool_decide_unpack _); exact I);
  internal_error_not_ok := ltac:(discriminate);
  pkt_code_range := ltac:(intros []; split; discriminate || reflexivity);
  header_type_inside := ltac:(vm_compute; lia);
  header_dataSize_inside := ltac:(vm_compute; lia);
  header_members_apart := ltac:(vm_compute; lia);
  members_after_header := ltac:(intros []; (done || (intros; vm_compute; lia)));
  destroy_id_inside := ltac:(vm_compute; lia);
  requests_fit := ltac:(intros []; vm_compute; lia);
  packet_fits_int := ltac:(reflexivity)
|}.

(** ** Scripted environments *)

(** The bytes of a packet of type [ty] whose body is [body]. *)
Definition wire (ty : Z) (body : list byte) : list byte :=
  le32 ty ++ le32 (Z.of_nat (length body)) ++ body.

(** The type of the request a trace starts with. *)
Definition requested_type (t : trace) : Z :=
  match List.find is_write t with
  | Some (EvWrite _ buf _) => load_u32 buf 0
  | _ => 0
  end.

(** A daemon that is up and serves one request: the socket connects,
    writes go through [chunk + 1] bytes at a time, the bytes of the answer
    to the request arrive [chunk + 1] at a time and the connection closes
    after them. *)
Definition daemon_env (chunk : nat) (answer : Z -> list byte) : env := {|
  env_socket := fun _ => 3;
  env_connect := fun _ _ _ => 0;
  env_getenv := fun _ _ => None;
  env_access := fun _ _ => true;
  env_write := fun _ _ _ => WriteAccepts chunk;
  env_read := fun t _ _ =>
    ReadBytes (take (S chunk) (drop (bytes_read t) (answer (requested_type t))));
  env_virGetDomain := fun _ _ _ => true;
  env_virFreeDomain := fun _ _ => 0;
  env_virFreeNetwork := fun _ _ => 0;
  env_auto_req := [];
  env_auto_reply := []
|}.

(** No daemon listens on the socket; [installed] tells whether the daemon
    executable can be found. *)
Definition down_env (installed : bool) : env := {|
  env_socket := fun _ => 3;
  env_connect := fun _ _ _ => -1;
  env_getenv := fun _ _ => None;
  env_access := fun _ _ => installed;
  env_write := fun _ _ _ => WriteError;
  env_read := fun _ _ _ => ReadError;
  env_virGetDomain := fun _ _ _ => false;
  env_virFreeDomain := fun _ _ => 0;
  env_virFreeNetwork := fun _ _ => 0;
  env_auto_req := [];
  env_auto_reply := []
|}.

Definition session_path : cstring := cstr "@/home/user/.qemud/sock".

(** A name in its array of [QEMUD_MAX_NAME_LEN] bytes. *)
Definition name_field (s : string) : list byte := resize 50 x00 (cstr s).

(** A daemon with five domains, running or defined, and five networks. *)
Definition five_of_each (ty : Z) : list byte :=
  if decide (ty = 3)
  then wire ty (le32 5 ++ le32 10 ++ le32 11 ++ le32 12 ++ le32 13 ++ le32 14)
  else
    wire ty
      (le32 5 ++ name_field "vm0" ++ name_field "vm1" ++ name_field "vm2"
       ++ name_field "vm3" ++ name_field "vm4").

(** * The rest of the driver *)

(** ** Opening a connection

    [qemuOpenConnection], [qemuOpen] and [qemuNetworkOpen] read a parsed
    URI, the effective user and the password database, and build the path
    of the socket in an automatic array. *)

(** [strcmp(a, b) == 0] is the equality of the two strings. *)
#[global] Instance byte_eq_decision : EqDecision byte := Byte.byte_eq_dec.

(** Handing a null pointer to [strcmp] has no defined behaviour; the
    functions that may do so report it. *)
Inductive behaviour (A : Type) : Type :=
| Behaves (a : A)
| NullDereference.
Arguments Behaves {A} a.
Arguments NullDereference {A}.

(** [xmlURI] of libxml2, as far as the driver reads it; [None] is a null
    member. *)
Record xmlURI := {
  uri_scheme : option cstring;
  uri_server : option cstring;
  uri_path : option cstring
}.

(** What [config.h], [limits.h], [internal.h] and [virterror.h] declare
    for these functions. *)
Record open_headers (hd : headers) := {
  LOCAL_STATE_DIR : string;
  PATH_MAX : nat;
  VIR_DRV_OPEN_QUIET : Z;
  VIR_DRV_OPEN_RO : Z;
  VIR_ERR_NO_SUPPORT : Z;
  (* [PATH_MAX] is an [int]; [sun_path] is the shorter array; the
     enumerators of [virErrorNumber] are distinct *)
  path_max_fits_int : Z.of_nat PATH_MAX < 2 ^ 31;
  sun_path_fits : (sizeof_sun_path hd <= PATH_MAX)%nat;
  no_support_not_ok : VIR_ERR_NO_SUPPORT <> VIR_ERR_OK hd
}.
Arguments LOCAL_STATE_DIR {hd} _.
Arguments PATH_MAX {hd} _.
Arguments VIR_DRV_OPEN_QUIET {hd} _.
Arguments VIR_DRV_OPEN_RO {hd} _.
Arguments VIR_ERR_NO_SUPPORT {hd} _.
Arguments path_max_fits_int {hd} _.
Arguments sun_path_fits {hd} _.
Arguments no_support_not_ok {hd} _.

(** The part of the outside world these functions consult.  The calls
    change nothing and are not recorded. *)
Record system := {
  (* [xmlParseURI]: the parsed URI, or [None] for NULL *)
  sys_xmlParseURI : cstring -> option xmlURI;
  (* [geteuid], a [uid_t] *)
  sys_geteuid : trace -> Z;
  (* [getpwuid(uid)->pw_dir], or [None] for NULL *)
  sys_getpwuid : trace -> Z -> option cstring;
  (* what [snprintf] leaves in the array when it fails because the
     length of its output does not fit an [int] *)
  sys_snprintf_failed : cstring -> list byte;
  (* the indeterminate contents of the automatic array [path] *)
  sys_auto_path : list byte;
  (* whether [strdup] finds the memory for a copy *)
  sys_strdup : trace -> cstring -> bool
}.

Section Opening.

Context (hd : headers) (oh : open_headers hd) (E : env) (Sy : system).

(** [snprintf(path, sizeof(path), "%s...", ...)] whose output would be
    [s]: the value returned and the string left in [path]. *)
Definition snprintf_path (s : cstring) : Z * cstring :=
  if decide (strlen s < 2 ^ 31)
  then (strlen s, c_str (take (PATH_MAX oh - 1) s))
  else (-1, c_str (take (PATH_MAX oh - 1) (sys_snprintf_failed Sy s))).

(** The string in the array [path] when nothing has been written to it. *)
Definition auto_path : cstring :=
  c_str (resize (PATH_MAX oh) x00 (sys_auto_path Sy)).

Definition qemuOpenConnection (conn : virConnect) (uri : xmlURI)
    (readonly : Z) (t : trace) : behaviour (Z * virConnect * trace) :=
  match uri_server uri with
  | Some _ => Behaves (-1, conn, t)
  | None =>
    match uri_path uri with
    | None => NullDereference
    | Some uri_path =>
      if decide (uri_path = cstr "/system") then
        if decide (readonly <> 0) then
          let '(n, path) :=
            snprintf_path
              (cstr (LOCAL_STATE_DIR oh ++ "/run/qemud/sock-ro")) in
          if decide (n >= Z.of_nat (PATH_MAX oh)) then Behaves (-1, conn, t)
          else Behaves (qemuOpenClientUNIX hd E conn path 1 t)
        else
          let '(n, path) :=
            snprintf_path (cstr (LOCAL_STATE_DIR oh ++ "/run/qemud/sock")) in
          if decide (n >= Z.of_nat (PATH_MAX oh)) then Behaves (-1, conn, t)
          else Behaves (qemuOpenClientUNIX hd E conn path 1 t)
      else if decide (uri_path = cstr "/session") then
        let uid := to_int (sys_geteuid Sy t) in
        if decide (uid < 0) then Behaves (-1, conn, t)
        else
          match sys_getpwuid Sy t uid with
          | None => Behaves (-1, conn, t)
          | Some pw_dir =>
            let '(n, path) :=
              snprintf_path (cstr "@" ++ pw_dir ++ cstr "/.qemud/sock") in
            if decide (n = Z.of_nat (PATH_MAX oh)) then Behaves (-1, conn, t)
            else Behaves (qemuOpenClientUNIX hd E conn path 1 t)
          end
      else Behaves (qemuOpenClientUNIX hd E conn auto_path 1 t)
    end
  end.

(** [name] is [None] for NULL.  The value [qemuOpenConnection] returns is
    not looked at. *)
Definition qemuOpen (conn : virConnect) (name : option cstring) (flags : Z)
    (t : trace) : behaviour (Z * virConnect * trace) :=
  match name with
  | None => Behaves (-1, conn, t)
  | Some name =>
    match sys_xmlParseURI Sy name with
    | None =>
        Behaves
          (-1, conn,
           if decide (Z.land flags (VIR_DRV_OPEN_QUIET oh) = 0)
           then qemuError hd conn None (VIR_ERR_NO_SUPPORT oh) (Some name) t
           else t)
    | Some uri =>
      if decide (uri_scheme uri <> Some (cstr "qemu") \/ uri_path uri = None)
      then Behaves (-1, conn, t)
      else
        let conn := {| qemud_fd := -1 |} in
        match qemuOpenConnection conn uri
                (if decide (Z.land flags (VIR_DRV_OPEN_RO oh) <> 0)
                 then 1 else 0) t with
        | NullDereference => NullDereference
        | Behaves (_, conn, t1) =>
            if decide (qemud_fd conn < 0) then Behaves (-1, conn, t1)
            else Behaves (0, conn, t1)
        end
    end
  end.

Definition qemuNetworkOpen (conn : virConnect) (name : option cstring)
    (flags : Z) (t : trace) : behaviour (Z * virConnect * trace) :=
  if decide (qemud_fd conn = -1) then Behaves (0, conn, t)
  else
    let by_user :=
      if decide (sys_geteuid Sy t = 0)
      then qemuOpen conn (Some (cstr "qemu:///system")) flags t
      else qemuOpen conn (Some (cstr "qemu:///session")) flags t in
    match name ≫= sys_xmlParseURI Sy with
    | Some uri =>
      match uri_scheme uri with
      | None => NullDereference
      | Some scheme =>
          if decide (scheme = cstr "qemu") then qemuOpen conn name flags t
          else by_user
      end
    | None => by_user
    end.

End Opening.

(** ** Lookups and descriptions

    The requests that look a domain up and that fetch a description have
    types and members of their own in [protocol.h]. *)

Inductive lookup_packet_type :=
| QEMUD_PKT_DOMAIN_LOOKUP_BY_ID
| QEMUD_PKT_DOMAIN_LOOKUP_BY_UUID
| QEMUD_PKT_DOMAIN_LOOKUP_BY_NAME
| QEMUD_PKT_DUMP_XML
| QEMUD_PKT_NETWORK_DUMP_XML
| QEMUD_PKT_NETWORK_GET_BRIDGE_NAME.

Inductive lookup_field :=
| domainLookupByIDRequest_id
| domainLookupByIDReply_name
| domainLookupByIDReply_uuid
| domainLookupByUUIDRequest_uuid
| domainLookupByUUIDReply_name
| domainLookupByUUIDReply_id
| domainLookupByNameRequest_name
| domainLookupByNameReply_uuid
| domainLookupByNameReply_id
| domainDumpXMLRequest_uuid
| domainDumpXMLReply_xml
| networkDumpXMLRequest_uuid
| networkDumpXMLReply_xml
| networkGetBridgeNameRequest_uuid
| networkGetBridgeNameReply_ifname.

Inductive lookup_request_struct :=
| domainLookupByIDRequest
| domainLookupByUUIDRequest
| domainLookupByNameRequest
| domainDumpXMLRequest
| networkDumpXMLRequest
| networkGetBridgeNameRequest.

Record lookup_headers (hd : headers) := {
  lookup_pkt_code : lookup_packet_type -> Z;
  lookup_sizeof_request : lookup_request_struct -> nat;
  lookup_offsetof : lookup_field -> nat;
  QEMUD_MAX_IFNAME_LEN : nat;
  (* an array has at least one element *)
  name_not_empty : (1 <= QEMUD_MAX_NAME_LEN hd)%nat
}.
Arguments lookup_pkt_code {hd} _ _.
Arguments lookup_sizeof_request {hd} _ _.
Arguments lookup_offsetof {hd} _ _.
Arguments QEMUD_MAX_IFNAME_LEN {hd} _.
Arguments name_not_empty {hd} _.

Section Lookups.

Context (hd : headers) (lh : lookup_headers hd) (E : env) (Sy : system).

(** [req.header.type = ty; req.header.dataSize = sizeof(s);] *)
Definition lookup_header (ty : lookup_packet_type)
    (s : lookup_request_struct) : packet :=
  store_u32
    (store_u32 (auto_req hd E) (offsetof hd header_type)
       (lookup_pkt_code lh ty))
    (offsetof hd header_dataSize) (Z.of_nat (lookup_sizeof_request lh s)).

(** The string in the array of [len] bytes at the member [f] of a reply,
    once its last byte has been set to NUL. *)
Definition terminated (reply : packet) (f : lookup_field) (len : nat)
    : cstring :=
  c_str (<[(len - 1)%nat := x00]>
           (load_bytes reply (lookup_offsetof lh f) len)).

Definition qemuLookupDomainByID (conn : virConnect) (id : Z) (t : trace)
    : option virDomain * trace :=
  let req :=
    store_u32
      (lookup_header QEMUD_PKT_DOMAIN_LOOKUP_BY_ID domainLookupByIDRequest)
      (lookup_offsetof lh domainLookupByIDRequest_id) id in
  let '(r, reply, t1) :=
    qemuProcessRequest hd E conn None req (auto_reply hd E) t in
  if decide (r < 0) then (None, t1)
  else
    match virGetDomain E conn
            (terminated reply domainLookupByIDReply_name
               (QEMUD_MAX_NAME_LEN hd))
            (load_bytes reply (lookup_offsetof lh domainLookupByIDReply_uuid)
               (QEMUD_UUID_RAW_LEN hd)) t1 with
    | (None, t2) => (None, t2)
    | (Some dom, t2) => (Some (set_id dom id), t2)
    end.

Definition qemuLookupDomainByUUID (conn : virConnect) (uuid : list byte)
    (t : trace) : option virDomain * trace :=
  let req :=
    store_bytes
      (lookup_header QEMUD_PKT_DOMAIN_LOOKUP_BY_UUID
         domainLookupByUUIDRequest)
      (lookup_offsetof lh domainLookupByUUIDRequest_uuid)
      (take (QEMUD_UUID_RAW_LEN hd) uuid) in
  let '(r, reply, t1) :=
    qemuProcessRequest hd E conn None req (auto_reply hd E) t in
  if decide (r < 0) then (None, t1)
  else
    match virGetDomain E conn
            (terminated reply domainLookupByUUIDReply_name
               (QEMUD_MAX_NAME_LEN hd))
            uuid t1 with
    | (None, t2) => (None, t2)
    | (Some dom, t2) =>
        (Some (set_id dom
                 (to_int (load_u32 reply
                            (lookup_offsetof lh domainLookupByUUIDReply_id)))),
         t2)
    end.

(** [strlen(name)] is compared as a [size_t]. *)
Definition qemuLookupDomainByName (conn : virConnect) (name : cstring)
    (t : trace) : outcome (option virDomain) * trace :=
  if decide (strlen name > Z.of_nat (QEMUD_MAX_NAME_LEN hd) - 1)
  then (Returns None, t)
  else
    match strcpy
            (lookup_header QEMUD_PKT_DOMAIN_LOOKUP_BY_NAME
               domainLookupByNameRequest)
            (lookup_offsetof lh domainLookupByNameRequest_name)
            (QEMUD_MAX_NAME_LEN hd) name with
    | Overrun => (Overrun, t)
    | Returns req =>
      let '(r, reply, t1) :=
        qemuProcessRequest hd E conn None req (auto_reply hd E) t in
      if decide (r < 0) then (Returns None, t1)
      else
        match virGetDomain E conn name
                (load_bytes reply
                   (lookup_offsetof lh domainLookupByNameReply_uuid)
                   (QEMUD_UUID_RAW_LEN hd)) t1 with
        | (None, t2) => (Returns None, t2)
        | (Some dom, t2) =>
            (Returns
               (Some (set_id dom
                        (to_int (load_u32 reply
                                   (lookup_offsetof lh
                                      domainLookupByNameReply_id))))),
             t2)
        end
    end.

(** The exchange of a request that carries a UUID, and the [strdup] of
    the string of [len] bytes at most that the reply holds at [f]. *)
Definition described (conn : virConnect) (ty : lookup_packet_type)
    (s : lookup_request_struct) (member : lookup_field) (uuid : list byte)
    (f : lookup_field) (len : nat) (t : trace) : option cstring * trace :=
  let req :=
    store_bytes (lookup_header ty s) (lookup_offsetof lh member)
      (take (QEMUD_UUID_RAW_LEN hd) uuid) in
  let '(r, reply, t1) :=
    qemuProcessRequest hd E conn None req (auto_reply hd E) t in
  if decide (r < 0) then (None, t1)
  else
    let s := terminated reply f len in
    (if sys_strdup Sy t1 s then Some s else None, t1).

Definition qemuDomainDumpXML (domain : virDomain) (flags : Z) (t : trace)
    : option cstring * trace :=
  described (dom_conn domain) QEMUD_PKT_DUMP_XML domainDumpXMLRequest
    domainDumpXMLRequest_uuid (dom_uuid domain) domainDumpXMLReply_xml
    (QEMUD_MAX_XML_LEN hd) t.

Definition qemuNetworkDumpXML (network : virNetwork) (flags : Z) (t : trace)
    : option cstring * trace :=
  described (net_conn network) QEMUD_PKT_NETWORK_DUMP_XML
    networkDumpXMLRequest networkDumpXMLRequest_uuid (net_uuid network)
    networkDumpXMLReply_xml (QEMUD_MAX_XML_LEN hd) t.

Definition qemuNetworkGetBridgeName (network : virNetwork) (t : trace)
    : option cstring * trace :=
  described (net_conn network) QEMUD_PKT_NETWORK_GET_BRIDGE_NAME
    networkGetBridgeNameRequest networkGetBridgeNameRequest_uuid
    (net_uuid network) networkGetBridgeNameReply_ifname
    (QEMUD_MAX_IFNAME_LEN lh) t.

End Lookups.

(** ** Keys of the docker configuration
    (src/lxc/docker_parse_command.c)

    [jsoneq] compares a token of the parsed JSON text with a key. *)

(** [jsontok_t] of [json.h]: the kind of a token and the positions in
    the text where it starts and ends ([type], [start] and [end] in C). *)
Record jsontok_t := {
  tok_type : Z;
  tok_start : Z;
  tok_end : Z
}.

(** What [json.h] and [stdint.h] declare. *)
Record json_headers := {
  JSON_STRING : Z;
  SIZE_MAX : Z;
  (* a [size_t] has at least 32 bits *)
  size_max_32 : 2 ^ 32 - 1 <= SIZE_MAX
}.

(** [strncmp(a, b, n) == 0]: the two strings agree on their first [n]
    bytes, or up to the NUL that ends both. *)
Fixpoint strncmp (a b : cstring) (n : nat) : bool :=
  match n with
  | O => true
  | S n' =>
      match a, b with
      | [], [] => true
      | x :: a', y :: b' => if decide (x = y) then strncmp a' b' n' else false
      | _, _ => false
      end
  end.

Section Json.

Context (jh : json_headers).

(** [Overrun] stands for a difference that does not fit an [int] and for
    a pointer [json + tok->start] outside the text. *)
Definition jsoneq (json : cstring) (tok : jsontok_t) (s : cstring)
    : outcome Z :=
  if decide (tok_type tok = JSON_STRING jh) then
    let len := tok_end tok - tok_start tok in
    if decide (- 2 ^ 31 <= len < 2 ^ 31) then
      if decide (to_int (strlen s) = len) then
        if decide (0 <= tok_start tok <= strlen json) then
          if strncmp (drop (Z.to_nat (tok_start tok)) json) s
               (Z.to_nat (len mod (SIZE_MAX jh + 1)))
          then Returns 0
          else Returns (-1)
        else Overrun
      else Returns (-1)
    else Overrun
  else Returns (-1).

(** The text of a token. *)
Definition token_text (json : cstring) (tok : jsontok_t) : cstring :=
  take (Z.to_nat (tok_end tok - tok_start tok))
    (drop (Z.to_nat (tok_start tok)) json).

End Json.

(** ** More observations on traces *)

(** The bytes a [write] took. *)
Definition sent (e : event) : list byte :=
  match e with EvWrite _ buf (Some got) => take got buf | _ => [] end.

(** The bytes that went out on the socket, in order. *)
Definition bytes_written (t : trace) : list byte := concat (map sent t).

Definition chunk_of (e : event) : list byte :=
  match e with EvRead _ _ (Some chunk) => chunk | _ => [] end.

(** The bytes that came in from the socket, in order. *)
Definition bytes_received (t : trace) : list byte := concat (map chunk_of t).

(** The descriptors [socket] handed out, the descriptors closed and the
    addresses of the calls to [connect], in order. *)
Definition opened (t : trace) : list Z :=
  omap (fun e => match e with
                 | EvSocket fd => if decide (fd < 0) then None else Some fd
                 | _ => None
                 end) t.

Definition closed (t : trace) : list Z :=
  omap (fun e => match e with EvClose fd => Some fd | _ => None end) t.

Definition connects (t : trace) : list (list byte) :=
  omap (fun e => match e with EvConnect _ addr _ => Some addr | _ => None end)
    t.

Definition is_socket (e : event) : bool :=
  match e with EvSocket _ => true | _ => false end.

(** The executables handed to [qemuForkServer]'s child, in order; [None]
    when none was found. *)
Definition starts (t : trace) : list (option cstring) :=
  omap (fun e => match e with EvForkServer p => Some p | _ => None end) t.

(** An executable that [qemuFindServerPath] may hand out: the value of
    [LIBVIRT_QEMU_SERVER] at some time, or one of the two installed
    daemons, accessible at a time at which the variable was not set. *)
Definition server_path (hd : headers) (E : env) (p : cstring) : Prop :=
  (exists t, env_getenv E t (cstr "LIBVIRT_QEMU_SERVER") = Some p) \/
  (p ∈ serverPaths hd /\
   exists t,
     env_getenv E t (cstr "LIBVIRT_QEMU_SERVER") = None /\
     env_access E t p = true).

(** ** Results of the listing functions *)

(** A listing function called with the array [arr] and the capacity [cap]
    stayed inside the array: it returned a count [n] that is -1 or at most
    [cap], the entries before [n] satisfy [P] and the entries from [n] on
    are as they were. *)
Definition kept_within {A : Type} (P : A -> Prop) (arr : list A) (cap : Z)
    (x : outcome (Z * list A)) : Prop :=
  exists n out,
    x = Returns (n, out) /\
    (n = -1 \/ n <= cap) /\
    length out = length arr /\
    Forall P (take (Z.to_nat n) out) /\
    drop (Z.to_nat n) out = drop (Z.to_nat n) arr.

(** ** Requests as the daemon reads them *)

(** [sent] is a request of type [ty] made of the header and the struct
    [s], whose member [f] holds the bytes [bs] from its start. *)
Definition request_with (hd : headers) (ty : qemud_packet_type)
    (s : request_struct) (f : field) (bs sent : list byte) : Prop :=
  length sent = (sizeof_header hd + sizeof_request hd s)%nat /\
  load_u32 sent (offsetof hd header_type) = pkt_code hd ty /\
  load_u32 sent (offsetof hd header_dataSize)
  = Z.of_nat (sizeof_request hd s) /\
  load_bytes sent (offsetof hd f) (length bs) = bs.

(** ** More instances and scripted environments *)

(** An instance of the parameters of the opening functions, after libvirt
    of the time, and a host for the examples: the user 500 with the home
    directory [/home/user], and a parser that knows a handful of names. *)
Definition qemud_open_headers : open_headers qemud_headers := {|
  LOCAL_STATE_DIR := "/var";
  PATH_MAX := 4096;
  VIR_DRV_OPEN_QUIET := 1;
  VIR_DRV_OPEN_RO := 2;
  VIR_ERR_NO_SUPPORT := 3;
  path_max_fits_int := eq_refl;
  sun_path_fits :=
    ltac:(simpl; lia) : (sizeof_sun_path qemud_headers <= 4096)%nat;
  no_support_not_ok := ltac:(discriminate) : 3 <> VIR_ERR_OK qemud_headers
|}.

Definition qemu_uri (path : string) : xmlURI :=
  {| uri_scheme := Some (cstr "qemu"); uri_server := None;
     uri_path := Some (cstr path) |}.

Definition host : system := {|
  sys_xmlParseURI := fun name =>
    if decide (name = cstr "qemu:///system") then Some (qemu_uri "/system")
    else if decide (name = cstr "qemu:///session")
    then Some (qemu_uri "/session")
    else if decide (name = cstr "qemu:///tmp") then Some (qemu_uri "/tmp")
    else if decide (name = cstr "xen:///")
    then Some {| uri_scheme := Some (cstr "xen"); uri_server := None;
                 uri_path := Some (cstr "/") |}
    else if decide (name = cstr "default")
    then Some {| uri_scheme := None; uri_server := None;
                 uri_path := Some (cstr "default") |}
    else None;
  sys_geteuid := fun _ => 500;
  sys_getpwuid := fun _ uid =>
    if decide (uid = 500) then Some (cstr "/home/user") else None;
  sys_snprintf_failed := fun _ => [];
  sys_auto_path := cstr "left on the stack";
  sys_strdup := fun _ _ => true
|}.

(** The layout of the lookup and description packets, in the manner of
    [qemud_headers]. *)
Definition qemud_lookup_headers : lookup_headers qemud_headers := {|
  lookup_pkt_code := fun ty =>
    match ty with
    | QEMUD_PKT_DOMAIN_LOOKUP_BY_ID => 6
    | QEMUD_PKT_DOMAIN_LOOKUP_BY_UUID => 7
    | QEMUD_PKT_DOMAIN_LOOKUP_BY_NAME => 8
    | QEMUD_PKT_DUMP_XML => 15
    | QEMUD_PKT_NETWORK_DUMP_XML => 32
    | QEMUD_PKT_NETWORK_GET_BRIDGE_NAME => 33
    end;
  lookup_sizeof_request := fun s =>
    match s with
    | domainLookupByIDRequest => 4%nat
    | domainLookupByNameRequest => 50%nat
    | _ => 16%nat
    end;
  lookup_offsetof := fun f =>
    match f with
    | domainLookupByIDReply_name => 24%nat
    | domainLookupByUUIDReply_name | domainLookupByNameReply_uuid => 12%nat
    | _ => 8%nat
    end;
  QEMUD_MAX_IFNAME_LEN := 50;
  name_not_empty :=
    ltac:(simpl; lia) : (1 <= QEMUD_MAX_NAME_LEN qemud_headers)%nat
|}.

(** A daemon that knows one domain, [vm0] with the id 7, and answers a
    create request, a define request or a lookup by id or by name with
    it. *)
Definition one_domain (ty : Z) : list byte :=
  let uuid := replicate 16 "a"%byte in
  if decide (ty = 5 \/ ty = 8)
  then wire ty (le32 7 ++ uuid ++ name_field "vm0")
  else wire ty (uuid ++ name_field "vm0").

(** The kinds of tokens and a text for the examples. *)
Definition json_h : json_headers :=
  {| JSON_STRING := 3; SIZE_MAX := 2 ^ 64 - 1;
     size_max_32 := ltac:(discriminate) |}.

Definition docker_config : cstring :=
  cstr "{'Memory': 1024, 'MemorySwap': 0}".

(** * Properties *)

(** Closed goals are settled by evaluation. *)
Ltac computed :=
  vm_compute;
  repeat match goal with |- _ /\ _ => split end;
  first [reflexivity | let H := fresh in intro H; discriminate H].

Ltac by_computing W :=
  let H := fresh in pose proof W as H; vm_compute in H |- *; exact H.

(** ** Memory *)

Section Memory.

Lemma byte_val_of_Z z : byte_val (byte_of_Z z) = z mod 256.
Proof.
  unfold byte_val, byte_of_Z.
  pose proof (Z.mod_pos_bound z 256 eq_refl) as Hmod.
  destruct (Byte.of_N (Z.to_N (z mod 256))) as [b|] eqn:Hb; simpl.
  - apply Byte.to_of_N in Hb. rewrite Hb. lia.
  - apply Byte.of_N_None_iff in Hb. lia.
Qed.

Lemma byte_at_store_inside (p : packet) off bs i :
  (off <= i < off + length bs)%nat -> (i < length p)%nat ->
  byte_at (store_bytes p off bs) i
  = from_option byte_val 0 (bs !! (i - off)%nat).
Proof.
  intros Hi Hp. unfold byte_at, store_bytes.
  by rewrite list_lookup_inserts by lia.
Qed.

Lemma byte_at_store_outside (p : packet) off bs i :
  (i < off \/ off + length bs <= i)%nat ->
  byte_at (store_bytes p off bs) i = byte_at p i.
Proof.
  intros [Hi|Hi]; unfold byte_at, store_bytes.
  - by rewrite list_lookup_inserts_lt.
  - by rewrite list_lookup_inserts_ge.
Qed.

Lemma length_store_bytes (p : packet) off bs :
  length (store_bytes p off bs) = length p.
Proof. apply length_inserts. Qed.

Lemma length_store_u32 (p : packet) off v :
  length (store_u32 p off v) = length p.
Proof. apply length_inserts. Qed.

(** A 32-bit member that has been assigned reads back, modulo 2^32. *)
Lemma load_store_u32 (p : packet) off v :
  (off + 4 <= length p)%nat -> load_u32 (store_u32 p off v) off = v mod 2 ^ 32.
Proof.
  intros Hp. unfold load_u32, store_u32, le32.
  rewrite !byte_at_store_inside by (simpl; lia).
  replace (off - off)%nat with 0%nat by lia.
  replace (off + 1 - off)%nat with 1%nat by lia.
  replace (off + 2 - off)%nat with 2%nat by lia.
  replace (off + 3 - off)%nat with 3%nat by lia.
  simpl. rewrite !byte_val_of_Z.
  change (2 ^ 8) with 256. change (2 ^ 16) with 65536.
  change (2 ^ 24) with 16777216. change (2 ^ 32) with 4294967296.
  Z.div_mod_to_equations. lia.
Qed.

(** A store elsewhere leaves it alone. *)
Lemma load_u32_store_apart (p : packet) off off' bs :
  (off + 4 <= off' \/ off' + length bs <= off)%nat ->
  load_u32 (store_bytes p off' bs) off = load_u32 p off.
Proof.
  intros Hapart. unfold load_u32.
  by rewrite !byte_at_store_outside by lia.
Qed.

Lemma load_u32_store_u32_apart (p : packet) off off' v :
  (off + 4 <= off' \/ off' + 4 <= off)%nat ->
  load_u32 (store_u32 p off' v) off = load_u32 p off.
Proof. intros Hapart. apply load_u32_store_apart. simpl. lia. Qed.

Lemma to_int_mod z : - 2 ^ 31 <= z < 2 ^ 31 -> to_int (z mod 2 ^ 32) = z.
Proof.
  intros Hz. unfold to_int.
  change (2 ^ 31) with 2147483648 in *. change (2 ^ 32) with 4294967296.
  Z.div_mod_to_equations. lia.
Qed.

End Memory.

(** ** Traces *)

Section Traces.

Lemma count_app p (t d : trace) : count p (t ++ d) = (count p t + count p d)%nat.
Proof. unfold count. by rewrite List.filter_app, length_app. Qed.

Lemma count_none p (d : trace) :
  Forall (fun e => p e = false) d -> count p d = 0%nat.
Proof.
  unfold count. induction 1 as [|e d He _ IH]; simpl; [done|].
  by rewrite He.
Qed.

Lemma sleeps_app (t d : trace) : sleeps (t ++ d) = sleeps t ++ sleeps d.
Proof. apply omap_app. Qed.

Lemma raised_app (t d : trace) : raised (t ++ d) = raised t ++ raised d.
Proof. apply omap_app. Qed.

Lemma bytes_read_app (t d : trace) :
  bytes_read (t ++ d) = (bytes_read t + bytes_read d)%nat.
Proof. apply sum_list_with_app. Qed.

Lemma grows_refl p t : grows p t t.
Proof. exists []. by rewrite app_nil_r. Qed.

Lemma grows_snoc p t t' e :
  grows p t t' -> p e = true -> grows p t (t' ++ [e]).
Proof.
  intros (d & -> & Hd) He. exists (d ++ [e]).
  rewrite app_assoc. split; [done|]. apply Forall_app; auto.
Qed.

Lemma grows_trans p t1 t2 t3 : grows p t1 t2 -> grows p t2 t3 -> grows p t1 t3.
Proof.
  intros (d & -> & Hd) (d' & -> & Hd'). exists (d ++ d').
  rewrite app_assoc. split; [done|]. by apply Forall_app.
Qed.

Lemma grows_weaken (p q : event -> bool) t t' :
  (forall e, p e = true -> q e = true) -> grows p t t' -> grows q t t'.
Proof.
  intros Hpq (d & -> & Hd). exists d. split; [done|].
  induction Hd; constructor; auto.
Qed.

(** Events of another kind are not added. *)
Lemma grows_count (p q : event -> bool) t t' :
  (forall e, p e = true -> q e = false) ->
  grows p t t' -> count q t' = count q t.
Proof.
  intros Hpq (d & -> & Hd). rewrite count_app, (count_none q d); [lia|].
  induction Hd; constructor; auto.
Qed.

Lemma grows_bytes_read (p : event -> bool) t t' :
  (forall e, p e = true -> is_read e = false) ->
  grows p t t' -> bytes_read t' = bytes_read t.
Proof.
  intros Hp (d & -> & Hd). rewrite bytes_read_app.
  enough (bytes_read d = 0%nat) by lia.
  induction Hd as [|e d He _ IH]; [done|].
  unfold bytes_read in *. simpl. rewrite IH.
  specialize (Hp e He). by destruct e.
Qed.

End Traces.

(** ** The loops of the transactor *)

Section Loops.

Context (hd : headers) (E : env).

Lemma write_loop_grows fd out t r t' :
  write_loop E fd out t = (r, t') -> grows is_write t t'.
Proof.
  funelim (write_loop E fd out t).
  - intros [= <- <-]. apply grows_refl.
  - intros [= <- <-]. apply grows_snoc; [apply grows_refl|done].
  - intros Hrec. eapply grows_trans; [|by eapply H].
    apply grows_snoc; [apply grows_refl|done].
Qed.

(** A read loop that comes to its end has received exactly [inLeft]
    bytes. *)
Lemma read_loop_spec fd inLeft reply inGot t r reply' t' :
  read_loop E fd inLeft reply inGot t = (r, reply', t') ->
  grows is_read t t' /\
  (r = true -> bytes_read t' = (bytes_read t + inLeft)%nat).
Proof.
  funelim (read_loop E fd inLeft reply inGot t).
  - intros [= <- <- <-]. split; [apply grows_refl|]. lia.
  - intros [= <- <- <-].
    split; [|done]. apply grows_snoc; [apply grows_refl|done].
  - intros [= <- <- <-].
    split; [|done]. apply grows_snoc; [apply grows_refl|done].
  - intros Hrec.
    destruct (H _ _ _ Hrec) as [Hgrows Hbytes].
    assert (length cs <= n)%nat as Hlen.
    { apply (f_equal length) in Heq. rewrite length_take in Heq.
      cbn [length] in Heq. lia. }
    split.
    + eapply grows_trans; [|exact Hgrows].
      apply grows_snoc; [apply grows_refl|done].
    + intros ->. rewrite Hbytes by done. rewrite bytes_read_app.
      unfold bytes_read at 2. simpl. lia.
Qed.

End Loops.

(** ** The transactor *)

Section Transactor.

Context (hd : headers) (E : env).

Lemma qemuError_grows con dom error info t :
  grows is_raise t (qemuError hd con dom error info t).
Proof.
  unfold qemuError. case_decide.
  - apply grows_refl.
  - apply grows_snoc; [apply grows_refl|done].
Qed.

Lemma qemuPacketError_grows con dom pkt t :
  grows is_raise t (qemuPacketError hd con dom pkt t).2.
Proof.
  unfold qemuPacketError. destruct pkt as [p|]; [case_decide|];
    apply qemuError_grows.
Qed.

(** An exchange only writes to the socket, reads from it and raises
    errors. *)
Lemma qemuProcessRequest_grows conn dom req reply t r reply' t' :
  qemuProcessRequest hd E conn dom req reply t = (r, reply', t') ->
  grows is_exchange t t'.
Proof.
  unfold qemuProcessRequest.
  destruct (write_loop _ _ _ _) as [w t1] eqn:Hw.
  apply write_loop_grows, (grows_weaken _ is_exchange) in Hw;
    [|by intros []].
  destruct w; [|by intros [= <- <- <-]].
  destruct (read_loop _ _ _ _ _ _) as [[h reply1] t2] eqn:Hh.
  apply read_loop_spec in Hh as [Hh _].
  apply (grows_weaken _ is_exchange) in Hh; [|by intros []].
  pose proof (grows_trans _ _ _ _ Hw Hh) as Hwh.
  destruct h; [|by intros [= <- <- <-]].
  case_decide.
  { intros [= <- <- <-]. eapply grows_trans; [exact Hwh|].
    eapply grows_weaken; [|apply (qemuPacketError_grows conn dom None)].
    by intros []. }
  destruct (read_loop _ _ _ _ _ t2) as [[b reply2] t3] eqn:Hb.
  apply read_loop_spec in Hb as [Hb _].
  apply (grows_weaken _ is_exchange) in Hb; [|by intros []].
  pose proof (grows_trans _ _ _ _ Hwh Hb) as Hwhb.
  destruct b; [|by intros [= <- <- <-]].
  case_decide; [|by intros [= <- <- <-]].
  pose proof (qemuPacketError_grows conn dom (Some reply2) t3) as Herr.
  destruct (qemuPacketError _ _ _ _ _) as [pkt t4].
  intros [= <- <- <-]. eapply grows_trans; [exact Hwhb|].
  eapply grows_weaken; [|exact Herr]. by intros [].
Qed.

(** C2: when the header of the reply has come in and declares a body
    larger than [union qemud_packet_data], the exchange fails with the
    error "Malformed data packet" raised right after the reads of the
    header: nothing but the bytes of the header has been read from the
    socket. *)
Theorem oversized_header_rejected conn dom req reply t t1 reply1 t2 :
  write_loop E (qemud_fd conn) (take (outLeft hd req) req) t = (true, t1) ->
  read_loop E (qemud_fd conn) (sizeof_header hd) reply 0 t1
    = (true, reply1, t2) ->
  load_u32 reply1 (offsetof hd header_dataSize) > Z.of_nat (sizeof_data hd) ->
  let t' :=
    t2 ++ [EvRaiseError (VIR_ERR_INTERNAL_ERROR hd)
             (Some (cstr "Malformed data packet"))] in
  qemuProcessRequest hd E conn dom req reply t = (-1, reply1, t') /\
  bytes_read t' = (bytes_read t + sizeof_header hd)%nat.
Proof.
  intros Hw Hh Hsize t'. split.
  - unfold qemuProcessRequest. rewrite Hw, Hh.
    rewrite decide_True by done. simpl. unfold qemuError.
    by rewrite decide_False by apply internal_error_not_ok.
  - apply write_loop_grows, (grows_bytes_read is_write) in Hw;
      [|by intros []].
    apply read_loop_spec in Hh as [_ Hh]. subst t'.
    rewrite bytes_read_app, Hh, Hw by done. unfold bytes_read at 2.
    simpl. lia.
Qed.

(** C3 (amended): when a complete reply of valid size has come in and its
    type is not the type of the request, the exchange fails whatever the
    body holds.  A reply that is not a failure packet raises "Incorrect
    reply type".  A failure packet raises the code and the message the
    daemon put in it, the message terminated and absent when empty,
    except that the code [VIR_ERR_OK] raises nothing. *)
Theorem mismatched_reply_rejected conn dom req reply t t1 reply1 t2 reply2 t3 :
  write_loop E (qemud_fd conn) (take (outLeft hd req) req) t = (true, t1) ->
  read_loop E (qemud_fd conn) (sizeof_header hd) reply 0 t1
    = (true, reply1, t2) ->
  load_u32 reply1 (offsetof hd header_dataSize) <= Z.of_nat (sizeof_data hd) ->
  read_loop E (qemud_fd conn)
    (Z.to_nat (load_u32 reply1 (offsetof hd header_dataSize))) reply1
    (sizeof_header hd) t2 = (true, reply2, t3) ->
  load_u32 reply2 (offsetof hd header_type)
    <> load_u32 req (offsetof hd header_type) ->
  qemuProcessRequest hd E conn dom req reply t =
    if decide (load_u32 reply2 (offsetof hd header_type)
               = pkt_code hd QEMUD_PKT_FAILURE)
    then
      let pkt := terminate_failure_message hd reply2 in
      (-1, pkt,
       if decide (failure_code hd pkt = VIR_ERR_OK hd) then t3
       else t3 ++ [EvRaiseError (failure_code hd pkt) (failure_info hd pkt)])
    else
      (-1, reply2,
       t3 ++ [EvRaiseError (VIR_ERR_INTERNAL_ERROR hd)
                (Some (cstr "Incorrect reply type"))]).
Proof.
  intros Hw Hh Hsize Hb Hty.
  unfold qemuProcessRequest. rewrite Hw, Hh.
  rewrite decide_False by lia. rewrite Hb.
  rewrite decide_True by done.
  unfold qemuPacketError, qemuError. case_decide; simpl.
  - done.
  - by rewrite decide_False by apply internal_error_not_ok.
Qed.

End Transactor.

(** ** Opening and closing the connection *)

Section Connection.

Context (hd : headers) (E : env).

Lemma qemuForkServer_found t :
  qemuFindServerPath hd E t <> None ->
  exists proxyPath,
    qemuForkServer hd E t = (0, t ++ [EvForkServer (Some proxyPath)]).
Proof.
  unfold qemuForkServer. destruct (qemuFindServerPath hd E t); [eauto|done].
Qed.

(** With [n] starts of the daemon still allowed, a socket that refuses
    every connection costs [n] more rounds, each with its start of the
    daemon and its sleep, and a last attempt to connect. *)
Lemma retry_gives_up conn path autostart (n : nat) :
  autostart <> 0 ->
  (forall t, 0 <= env_socket E t) ->
  (forall t fd addr, env_connect E t fd addr < 0) ->
  (forall t, qemuFindServerPath hd E t <> None) ->
  forall trials t,
  trials = 3 - Z.of_nat n ->
  exists d,
    qemuOpenClientUNIX_retry hd E conn path autostart trials t
    = (-1, conn, t ++ d)
    /\ map call_of d
       = concat (map failed_round (seqZ (trials + 1) (Z.of_nat n)))
         ++ failed_connect.
Proof.
  intros Hauto Hsocket Hconnect Hfound.
  induction n as [|n IH]; intros trials t Htrials;
    rewrite qemuOpenClientUNIX_retry_equation_1; cbv zeta;
    rewrite decide_False by (specialize (Hsocket t); lia);
    rewrite decide_True by apply Hconnect.
  - rewrite decide_False by lia. rewrite <- !app_assoc. simpl.
    by eexists.
  - rewrite decide_True by lia.
    match goal with |- context [qemuForkServer hd E ?t3] =>
      destruct (qemuForkServer_found t3 (Hfound t3)) as [proxyPath ->]
    end.
    simpl.
    edestruct (IH (trials + 1)) as (d & -> & Hcalls); [lia|].
    rewrite <- !app_assoc. simpl. eexists. split; [done|].
    simpl. rewrite Hcalls.
    rewrite (seqZ_cons (trials + 1)) by lia. simpl.
    replace (Z.pred (Z.of_nat (S n))) with (Z.of_nat n) by lia.
    by replace (Z.succ (trials + 1)) with (trials + 1 + 1) by lia.
Qed.

Lemma count_fork_calls (d : trace) :
  count is_fork d
  = length (List.filter
              (fun c => match c with CallForkServer => true | _ => false end)
              (map call_of d)).
Proof.
  unfold count. induction d as [|e d IH]; [done|].
  destruct e; simpl; by rewrite IH.
Qed.

Lemma sleeps_calls (d : trace) :
  sleeps d
  = omap (fun c => match c with CallUsleep us => Some us | _ => None end)
      (map call_of d).
Proof.
  induction d as [|e d IH]; [done|].
  change (e :: d) with ([e] ++ d). rewrite sleeps_app, IH. by destruct e.
Qed.


(** C9: [qemuClose] always succeeds and leaves the connection closed; it
    closes the descriptor if there is one, and a second [qemuClose]
    changes neither the connection nor the trace, so the descriptor is
    closed once. *)
Theorem close_idempotent conn t :
  let '(r1, conn1, t1) := qemuClose conn t in
  let '(r2, conn2, t2) := qemuClose conn1 t1 in
  r1 = 0 /\ r2 = 0 /\ qemud_fd conn1 = -1 /\ conn2 = conn1 /\ t2 = t1 /\
  t1 = (if decide (qemud_fd conn = -1) then t
        else t ++ [EvClose (qemud_fd conn)]) /\
  count is_close t2 =
    if decide (qemud_fd conn = -1) then count is_close t
    else S (count is_close t).
Proof.
  unfold qemuClose.
  destruct (decide (qemud_fd conn <> -1)) as [Hopen|Hclosed]; simpl;
    repeat case_decide; try done; rewrite ?count_app; simpl;
    repeat split; try done; lia.
Qed.

End Connection.

(** ** Listing *)

Section Listing.

Context (hd : headers) (E : env).

(** The copy loop stays inside an array that has room for it and rewrites
    exactly the entries [i .. i + togo - 1]. *)
Lemma fill_spec {A : Type} (elem : nat -> A) togo : forall i arr,
  (i + togo <= length arr)%nat ->
  fill elem togo i arr
  = Returns (take i arr ++ map elem (seq i togo) ++ drop (i + togo) arr).
Proof.
  induction togo as [|togo IH]; intros i arr Hroom; simpl.
  - by rewrite Nat.add_0_r, take_drop.
  - rewrite decide_True by lia.
    rewrite IH by (rewrite length_insert; lia).
    rewrite (take_S_r _ _ (elem i))
      by (apply list_lookup_insert_eq; lia).
    rewrite take_insert_ge by lia.
    rewrite drop_insert_lt by lia.
    rewrite <- app_assoc. simpl.
    by replace (i + S togo)%nat with (S (i + togo)) by lia.
Qed.

(** [qemuListDomains] on a reply that came in. *)
Lemma qemuListDomains_returns conn ids maxids t reply t' :
  qemuProcessRequest hd E conn None
    (set_header hd (auto_req hd E) QEMUD_PKT_LIST_DOMAINS 0)
    (auto_reply hd E) t = (0, reply, t') ->
  let n := to_int (load_u32 reply (offsetof hd listDomainsReply_numDomains)) in
  Z.min n maxids <= Z.of_nat (length ids) ->
  let m := Z.to_nat (Z.min n maxids) in
  qemuListDomains hd E conn ids maxids t
  = (Returns (Z.min n maxids,
              map (reply_domain hd reply) (seq 0 m) ++ drop m ids), t').
Proof.
  intros Hreply n Hroom m. unfold qemuListDomains. rewrite Hreply.
  rewrite decide_False by lia. fold n.
  replace (if decide (n > maxids) then maxids else n) with (Z.min n maxids)
    by (case_decide; lia).
  fold m. rewrite fill_spec by (simpl; lia). by rewrite take_0.
Qed.



End Listing.

(** ** Domains and networks *)

Section Domains.

Context (hd : headers) (E : env).

(** No handle is released during an exchange. *)
Lemma qemuProcessRequest_frees conn dom req reply t r reply' t' :
  qemuProcessRequest hd E conn dom req reply t = (r, reply', t') ->
  count is_free t' = count is_free t.
Proof.
  intros Hreq. apply qemuProcessRequest_grows in Hreq.
  eapply grows_count; [|exact Hreq]. by intros [].
Qed.

(** A document that is too long for the request, and whose length still
    fits an [int], is turned down before anything is sent. *)
Lemma oversize_document_rejected conn xml flags t :
  Z.of_nat (QEMUD_MAX_XML_LEN hd) - 1 < strlen xml < 2 ^ 31 ->
  qemuDomainCreateLinux hd E conn xml flags t = (Returns None, t) /\
  qemuDomainDefineXML hd E conn xml t = (Returns None, t).
Proof.
  intros Hlen. unfold qemuDomainCreateLinux, qemuDomainDefineXML.
  assert (to_int (strlen xml) = strlen xml) as ->.
  { unfold to_int, strlen in *. rewrite Z.mod_small; lia. }
  by rewrite !decide_True by lia.
Qed.

(** A document whose length does not fit an [int] passes the length check
    when the length wraps below the limit; the [strcpy] then runs past the
    end of the request. *)
Lemma wrapped_length_overruns conn xml flags t :
  to_int (strlen xml) <= Z.of_nat (QEMUD_MAX_XML_LEN hd) - 1 ->
  Z.of_nat (QEMUD_MAX_XML_LEN hd) <= strlen xml ->
  qemuDomainCreateLinux hd E conn xml flags t = (Overrun, t) /\
  qemuDomainDefineXML hd E conn xml t = (Overrun, t).
Proof.
  intros Hwrap Hlen. unfold strlen in Hlen.
  unfold qemuDomainCreateLinux, qemuDomainDefineXML, strcpy.
  split.
  - rewrite (decide_False (P := _ > _)) by lia.
    by rewrite (decide_False (P := (_ < _)%nat)) by lia.
  - rewrite (decide_False (P := _ > _)) by lia.
    by rewrite (decide_False (P := (_ < _)%nat)) by lia.
Qed.

(** C7: [qemuUndefine] and [qemuNetworkUndefine] release the handle once,
    after the exchange and whatever its result; they return -1 when the
    exchange failed or the release failed, and 0 otherwise. *)
Theorem undefine_frees_once dom network t :
  let x :=
    qemuProcessRequest hd E (dom_conn dom) None
      (uuid_request hd E QEMUD_PKT_DOMAIN_UNDEFINE domainUndefineRequest
         domainUndefineRequest_uuid (dom_uuid dom))
      (auto_reply hd E) t in
  let freed := env_virFreeDomain E x.2 dom in
  let y :=
    qemuProcessRequest hd E (net_conn network) None
      (uuid_request hd E QEMUD_PKT_NETWORK_UNDEFINE networkUndefineRequest
         networkUndefineRequest_uuid (net_uuid network))
      (auto_reply hd E) t in
  let freed_net := env_virFreeNetwork E y.2 network in
  qemuUndefine hd E dom t
  = (if decide (x.1.1 < 0 \/ freed < 0) then -1 else 0,
     x.2 ++ [EvFreeDomain dom freed]) /\
  count is_free (qemuUndefine hd E dom t).2 = S (count is_free t) /\
  qemuNetworkUndefine hd E network t
  = (if decide (y.1.1 < 0 \/ freed_net < 0) then -1 else 0,
     y.2 ++ [EvFreeNetwork network freed_net]) /\
  count is_free (qemuNetworkUndefine hd E network t).2 = S (count is_free t).
Proof.
  intros x freed y freed_net.
  unfold qemuUndefine, qemuNetworkUndefine, virFreeDomain, virFreeNetwork.
  fold x y. subst freed freed_net.
  destruct x as [[r reply] t1] eqn:Hx, y as [[r' reply'] t1'] eqn:Hy.
  apply qemuProcessRequest_frees in Hx, Hy. simpl.
  rewrite !count_app, Hx, Hy. simpl.
  repeat split; repeat case_decide; try done; lia.
Qed.

(** C8: on a reply that came in, [qemuGetDomainInfo] succeeds with the
    state running, paused or shut off when the daemon reports the run
    state running, paused or stopped, and fails on every other run state,
    leaving the caller's struct cleared. *)
Theorem get_info_maps_runstate domain info t reply t' :
  qemuProcessRequest hd E (dom_conn domain) None
    (uuid_request hd E QEMUD_PKT_DOMAIN_GET_INFO domainGetInfoRequest
       domainGetInfoRequest_uuid (dom_uuid domain))
    (auto_reply hd E) t = (0, reply, t') ->
  let runstate := load_u32 reply (offsetof hd domainGetInfoReply_runstate) in
  let '(ret, info', t'') := qemuGetDomainInfo hd E domain info t in
  t'' = t' /\
  (runstate = QEMUD_STATE_RUNNING hd ->
   ret = 0 /\ state info' = VIR_DOMAIN_RUNNING) /\
  (runstate = QEMUD_STATE_PAUSED hd ->
   ret = 0 /\ state info' = VIR_DOMAIN_PAUSED) /\
  (runstate = QEMUD_STATE_STOPPED hd ->
   ret = 0 /\ state info' = VIR_DOMAIN_SHUTOFF) /\
  (runstate <> QEMUD_STATE_RUNNING hd ->
   runstate <> QEMUD_STATE_PAUSED hd ->
   runstate <> QEMUD_STATE_STOPPED hd ->
   ret = -1 /\ info' = cleared_info).
Proof.
  intros Hreply runstate. unfold qemuGetDomainInfo. rewrite Hreply.
  rewrite decide_False by lia. fold runstate.
  pose proof (runstates_distinct hd) as Hdistinct.
  inversion_clear Hdistinct as [|? ? Hr Htail].
  inversion_clear Htail as [|? ? Hp _].
  apply not_elem_of_cons in Hr as [Hrp Hrs], Hp as [Hps _].
  apply not_elem_of_cons in Hrs as [Hrs _].
  repeat case_decide; simpl; repeat split; intros; congruence.
Qed.

(** The header that [set_header] writes into a request reads back. *)
Lemma set_header_fields (req : packet) ty (size : nat) :
  length req = sizeof_packet hd ->
  (size <= sizeof_data hd)%nat ->
  let req' := set_header hd req ty size in
  load_u32 req' (offsetof hd header_type) = pkt_code hd ty /\
  load_u32 req' (offsetof hd header_dataSize) = Z.of_nat size /\
  length req' = sizeof_packet hd.
Proof.
  intros Hlen Hsize req'. subst req'. unfold set_header, sizeof_packet in *.
  pose proof (header_type_inside hd). pose proof (header_dataSize_inside hd).
  pose proof (header_members_apart hd). pose proof (packet_fits_int hd).
  pose proof (pkt_code_range hd ty).
  repeat split.
  - rewrite load_u32_store_u32_apart by lia.
    rewrite load_store_u32 by lia. apply Z.mod_small. lia.
  - rewrite load_store_u32 by (rewrite length_store_u32; lia).
    apply Z.mod_small. lia.
  - by rewrite !length_store_u32.
Qed.

(** The request of [qemuDestroyDomain] has the type of a destroy request,
    is sent with its header and its one member, and carries the id. *)
Lemma destroy_request_fields domain :
  - 2 ^ 31 <= dom_id domain < 2 ^ 31 ->
  let req := destroy_request hd E domain in
  load_u32 req (offsetof hd header_type)
  = pkt_code hd QEMUD_PKT_DOMAIN_DESTROY /\
  outLeft hd req
  = (sizeof_header hd + sizeof_request hd domainDestroyRequest)%nat /\
  to_int (load_u32 req (offsetof hd domainDestroyRequest_id)) = dom_id domain.
Proof.
  intros Hid req. subst req. unfold destroy_request, outLeft.
  pose proof (requests_fit hd domainDestroyRequest) as Hfit.
  destruct (set_header_fields (auto_req hd E) QEMUD_PKT_DOMAIN_DESTROY
              (sizeof_request hd domainDestroyRequest))
    as (Hty & Hsize & Hlen); [apply length_resize|done|].
  pose proof (members_after_header hd domainDestroyRequest_id) as Hafter.
  pose proof (header_type_inside hd). pose proof (header_dataSize_inside hd).
  pose proof (destroy_id_inside hd). pose proof (packet_fits_int hd).
  unfold sizeof_packet in *.
  rewrite !load_u32_store_u32_apart by (cut (sizeof_header hd
    <= offsetof hd domainDestroyRequest_id)%nat; [lia|by apply Hafter]).
  rewrite Hty, Hsize, load_store_u32 by lia.
  repeat split.
  - unfold to_int. rewrite Z.mod_small by lia. lia.
  - by apply to_int_mod.
Qed.


End Domains.

(** * The theorems at work

    The parameters are those of [qemud_headers]; the daemon is scripted. *)

(** ** Opening *)



(** ** Exchanges *)

Lemma oversized_header_rejected_witness :
  let E := daemon_env 2 (fun _ => le32 3 ++ le32 6000 ++ cstr "bogus") in
  let conn := {| qemud_fd := 3 |} in
  let req :=
    set_header qemud_headers (auto_req qemud_headers E)
      QEMUD_PKT_LIST_DOMAINS 0 in
  let reply := auto_reply qemud_headers E in
  let w := write_loop E 3 (take (outLeft qemud_headers req) req) [] in
  let h := read_loop E 3 8 reply 0 w.2 in
  let t' :=
    h.2 ++ [EvRaiseError 1 (Some (cstr "Malformed data packet"))] in
  w.1 = true /\ h.1.1 = true /\ load_u32 h.1.2 4 = 6000 /\
  qemuProcessRequest qemud_headers E conn None req reply []
  = (-1, h.1.2, t') /\
  bytes_read t' = 8%nat.
Proof.
  intros.
  assert (w = (true, w.2)) as Hw by computed.
  assert (h = (true, h.1.2, h.2)) as Hh by computed.
  assert (load_u32 h.1.2 4 > 5004) as Hsize by computed.
  do 3 (split; [computed|]).
  by_computing
    (oversized_header_rejected qemud_headers E conn None req reply []
       w.2 h.1.2 h.2 Hw Hh Hsize).
Defined.

Lemma mismatched_reply_rejected_witness :
  let E := daemon_env 2 (fun _ => wire 0 (le32 7 ++ cstr "no such domain")) in
  let conn := {| qemud_fd := 3 |} in
  let req :=
    set_header qemud_headers (auto_req qemud_headers E)
      QEMUD_PKT_LIST_DOMAINS 0 in
  let reply := auto_reply qemud_headers E in
  let w := write_loop E 3 (take (outLeft qemud_headers req) req) [] in
  let h := read_loop E 3 8 reply 0 w.2 in
  let b := read_loop E 3 (Z.to_nat (load_u32 h.1.2 4)) h.1.2 8 h.2 in
  w.1 = true /\ h.1.1 = true /\ b.1.1 = true /\
  load_u32 b.1.2 0 = 0 /\ load_u32 req 0 = 3 /\
  qemuProcessRequest qemud_headers E conn None req reply []
  = (-1, b.1.2, b.2 ++ [EvRaiseError 7 (Some (cstr "no such domain"))]).
Proof.
  intros.
  assert (w = (true, w.2)) as Hw by computed.
  assert (h = (true, h.1.2, h.2)) as Hh by computed.
  assert (load_u32 h.1.2 4 <= 5004) as Hsize by computed.
  assert (b = (true, b.1.2, b.2)) as Hb by computed.
  assert (load_u32 b.1.2 0 <> load_u32 req 0) as Hty by computed.
  do 5 (split; [computed|]).
  by_computing
    (mismatched_reply_rejected qemud_headers E conn None req reply []
       w.2 h.1.2 h.2 b.1.2 b.2 Hw Hh Hsize Hb Hty).
Defined.

(** The claim C3 as it is written fails on a failure packet whose code is
    [VIR_ERR_OK]: the exchange fails and no error is raised. *)
Lemma failure_with_code_ok_counterexample :
  let E := daemon_env 2 (fun _ => wire 0 (le32 0 ++ cstr "no such domain")) in
  let req :=
    set_header qemud_headers (auto_req qemud_headers E)
      QEMUD_PKT_LIST_DOMAINS 0 in
  let '(r, reply, t) :=
    qemuProcessRequest qemud_headers E {| qemud_fd := 3 |} None req
      (auto_reply qemud_headers E) [] in
  r = -1 /\ bytes_read t = 26%nat /\
  load_u32 reply 0 = pkt_code qemud_headers QEMUD_PKT_FAILURE /\
  failure_code qemud_headers reply = VIR_ERR_OK qemud_headers /\
  failure_info qemud_headers reply = Some (cstr "no such domain") /\
  raised t = [].
Proof. computed. Qed.

(** ** Listing *)




(** ** Domains *)

(** C6, where the code fails the claim: the length of a document of 2^31
    bytes wraps to a negative [int], the check against
    [QEMUD_MAX_XML_LEN] lets it through, and the [strcpy] into the request
    runs past the end of the array, and of the whole packet, instead of
    the call failing. *)
Theorem two_gigabyte_document_overruns E conn flags t :
  let xml := replicate (Z.to_nat (2 ^ 31)) "a"%byte in
  strlen xml = 2 ^ 31 /\
  to_int (strlen xml) = - 2 ^ 31 /\
  Z.of_nat (sizeof_packet qemud_headers) < strlen xml /\
  qemuDomainCreateLinux qemud_headers E conn xml flags t = (Overrun, t) /\
  qemuDomainDefineXML qemud_headers E conn xml t = (Overrun, t).
Proof.
  intros xml.
  assert (strlen xml = 2 ^ 31) as Hlen.
  { unfold xml, strlen. rewrite length_replicate. by apply Z2Nat.id. }
  split; [done|]. split; [by rewrite Hlen|].
  split; [rewrite Hlen; computed|].
  apply wrapped_length_overruns; rewrite Hlen; computed.
Qed.

Lemma get_info_maps_runstate_witness :
  let E :=
    daemon_env 2
      (fun ty => wire ty (le32 77 ++ le32 0 ++ le32 2 ++ le32 100 ++ le32 200
                          ++ le32 4)) in
  let domain :=
    {| dom_conn := {| qemud_fd := 3 |}; dom_name := cstr "vm0";
       dom_uuid := replicate 16 "u"%byte; dom_id := 1 |} in
  let x :=
    qemuProcessRequest qemud_headers E (dom_conn domain) None
      (uuid_request qemud_headers E QEMUD_PKT_DOMAIN_GET_INFO
         domainGetInfoRequest domainGetInfoRequest_uuid (dom_uuid domain))
      (auto_reply qemud_headers E) [] in
  x.1.1 = 0 /\
  load_u32 x.1.2 16 = QEMUD_STATE_PAUSED qemud_headers /\
  qemuGetDomainInfo qemud_headers E domain cleared_info []
  = (0,
     {| state := VIR_DOMAIN_PAUSED; maxMem := 200; memory := 100;
        nrVirtCpu := 4; cpuTime := 77 |},
     x.2).
Proof.
  intros.
  assert (x = (0, x.1.2, x.2)) as Hx by computed.
  do 2 (split; [computed|]).
  pose proof
    (get_info_maps_runstate qemud_headers E domain cleared_info [] x.1.2 x.2
       Hx) as W.
  cbv zeta in W.
  destruct (qemuGetDomainInfo qemud_headers E domain cleared_info [])
    as [[ret info] t] eqn:Hinfo.
  destruct W as (-> & _ & [-> Hstate] & _); [computed|].
  f_equal. f_equal.
  apply (f_equal (fun r => r.1.2)) in Hinfo. simpl in Hinfo. rewrite <- Hinfo.
  computed.
Defined.


(** With no daemon to talk to the exchange fails; the handle is released
    all the same and the failure is returned. *)
Lemma undefine_frees_once_witness :
  let dom :=
    {| dom_conn := {| qemud_fd := 3 |}; dom_name := cstr "vm0";
       dom_uuid := replicate 16 "u"%byte; dom_id := -1 |} in
  let network :=
    {| net_conn := {| qemud_fd := 3 |}; net_name := cstr "net0";
       net_uuid := replicate 16 "n"%byte |} in
  let '(ret, t) := qemuUndefine qemud_headers (down_env true) dom [] in
  let '(ret_net, t_net) :=
    qemuNetworkUndefine qemud_headers (down_env true) network [] in
  ret = -1 /\ map call_of t = [CallWrite; CallFreeDomain] /\
  count is_free t = 1%nat /\
  ret_net = -1 /\ map call_of t_net = [CallWrite; CallFreeNetwork] /\
  count is_free t_net = 1%nat.
Proof.
  intros dom network.
  destruct (undefine_frees_once qemud_headers (down_env true) dom network [])
    as (-> & _ & -> & _).
  computed.
Defined.

Lemma close_idempotent_witness :
  let '(r1, conn1, t1) := qemuClose {| qemud_fd := 3 |} [] in
  let '(r2, conn2, t2) := qemuClose conn1 t1 in
  r1 = 0 /\ r2 = 0 /\ conn1 = {| qemud_fd := -1 |} /\ conn2 = conn1 /\
  t1 = [EvClose 3] /\ t2 = [EvClose 3].
Proof.
  pose proof (close_idempotent {| qemud_fd := 3 |} []) as W.
  destruct (qemuClose {| qemud_fd := 3 |} []) as [[r1 conn1] t1].
  destruct (qemuClose conn1 t1) as [[r2 conn2] t2].
  destruct W as (-> & -> & Hfd & -> & -> & -> & _).
  destruct conn1 as [fd]. simpl in Hfd. subst fd. by repeat split.
Defined.

(** * More of the driver *)

(** ** The loops of the transactor, byte by byte *)

Section Bytes.

Context (E : env).

Lemma bytes_written_app (t d : trace) :
  bytes_written (t ++ d) = bytes_written t ++ bytes_written d.
Proof. unfold bytes_written. by rewrite map_app, concat_app. Qed.

Lemma bytes_received_app (t d : trace) :
  bytes_received (t ++ d) = bytes_received t ++ bytes_received d.
Proof. unfold bytes_received. by rewrite map_app, concat_app. Qed.

(** What [write_loop] puts on the wire. *)
Lemma write_loop_written fd out t :
  let '(ok, t') := write_loop E fd out t in
  exists gone rest,
    out = gone ++ rest /\
    bytes_written t' = bytes_written t ++ gone /\
    (ok = true <-> rest = []).
Proof.
  funelim (write_loop E fd out t).
  - exists [], []. by rewrite !app_nil_r.
  - exists [], (b :: out'). rewrite bytes_written_app. simpl.
    rewrite !app_nil_r. split; [done|]. split; [done|]. by split.
  - destruct (write_loop E fd (drop k out') _) as [ok t'].
    destruct H as (gone & rest & Hout & Hwritten & Hok).
    exists (b :: take k out' ++ gone), rest. repeat split.
    + simpl. rewrite <- app_assoc, <- Hout. by rewrite take_drop.
    + rewrite Hwritten, bytes_written_app. unfold bytes_written at 2.
      simpl. rewrite app_nil_r.
      rewrite <- (take_take out' k (length out')), (take_ge out') by lia.
      by rewrite <- app_assoc.
    + apply Hok.
    + apply Hok.
Qed.

(** X1: however the socket splits the writes, [write_loop] puts the bytes
    it was given on the wire, each once and in order: what has gone out
    when it returns is a first part of them, and all of them exactly when
    it reports success. *)
Theorem write_loop_sends_in_order fd out t ok t' :
  write_loop E fd out t = (ok, t') ->
  exists gone,
    gone `prefix_of` out /\
    bytes_written t' = bytes_written t ++ gone /\
    (ok = true <-> gone = out).
Proof.
  intros Hloop. pose proof (write_loop_written fd out t) as Hw.
  rewrite Hloop in Hw. destruct Hw as (gone & rest & -> & Hwritten & Hok).
  exists gone. split; [by exists rest|]. split; [done|].
  rewrite Hok. split; [intros ->; by rewrite app_nil_r|].
  intros Hall. apply (f_equal length) in Hall. rewrite length_app in Hall.
  destruct rest; [done|simpl in Hall; lia].
Qed.

(** What [read_loop] takes from the wire and where it puts it. *)
Lemma read_loop_received fd inLeft reply inGot t :
  let '(ok, reply', t') := read_loop E fd inLeft reply inGot t in
  exists got,
    bytes_received t' = bytes_received t ++ got /\
    reply' = store_bytes reply inGot got /\
    (length got <= inLeft)%nat /\
    (ok = true <-> length got = inLeft).
Proof.
  funelim (read_loop E fd inLeft reply inGot t).
  - exists []. rewrite app_nil_r. simpl. repeat split; simpl; (lia || done).
  - exists []. rewrite bytes_received_app. simpl. rewrite !app_nil_r.
    repeat split; simpl; (lia || done).
  - exists []. rewrite bytes_received_app. simpl. rewrite !app_nil_r.
    repeat split; simpl; (lia || done).
  - assert (length cs <= n)%nat as Hlen.
    { apply (f_equal length) in Heq. rewrite length_take in Heq.
      cbn [length] in Heq. lia. }
    destruct (read_loop E fd (n - length cs) _ _ _) as [[ok reply'] t'].
    destruct H as (got & Hreceived & Hreply & Hbound & Hok).
    exists ((c :: cs) ++ got). repeat split.
    + rewrite Hreceived, bytes_received_app. unfold bytes_received at 2.
      simpl. by rewrite app_nil_r, <- app_assoc.
    + rewrite Hreply. unfold store_bytes.
      rewrite (list_inserts_app_l (c :: cs)). f_equal. simpl. lia.
    + rewrite length_app. simpl. lia.
    + intros Hfull. apply Hok in Hfull. rewrite length_app. simpl. lia.
    + rewrite length_app. simpl. intros Hfull. apply Hok. lia.
Qed.

(** X2: whatever the sizes of the pieces the socket hands over,
    [read_loop] stores what it receives in the buffer, in order, from
    [in + inGot] on; it receives at most [inLeft] bytes and reports
    success exactly when it has received them all. *)
Theorem read_loop_stores_in_order fd inLeft reply inGot t ok reply' t' :
  read_loop E fd inLeft reply inGot t = (ok, reply', t') ->
  exists got,
    bytes_received t' = bytes_received t ++ got /\
    reply' = store_bytes reply inGot got /\
    (length got <= inLeft)%nat /\
    (ok = true <-> length got = inLeft).
Proof.
  intros Hloop. pose proof (read_loop_received fd inLeft reply inGot t) as Hr.
  by rewrite Hloop in Hr.
Qed.

End Bytes.

(** ** Strings in arrays *)

Section Strings.

Lemma c_str_prefix (a : list byte) : c_str a `prefix_of` a.
Proof.
  induction a as [|c a IH]; simpl; [done|].
  destruct (Byte.eqb c x00); [apply prefix_nil|by apply prefix_cons].
Qed.

Lemma c_str_length (a : list byte) : (length (c_str a) <= length a)%nat.
Proof. apply prefix_length, c_str_prefix. Qed.

Lemma c_str_no_nul (a : list byte) : x00 ∉ c_str a.
Proof.
  induction a as [|c a IH]; simpl; [apply not_elem_of_nil|].
  destruct (Byte.eqb c x00) eqn:Hc; [apply not_elem_of_nil|].
  apply Byte.eqb_false in Hc. apply not_elem_of_cons. split; [congruence|done].
Qed.

(** The string ends at the first NUL at the latest. *)
Lemma c_str_until (a : list byte) i :
  a !! i = Some x00 -> (length (c_str a) <= i)%nat.
Proof.
  revert i. induction a as [|c a IH]; intros [|i] Hi; simpl in *; try done.
  - by injection Hi as ->.
  - destruct (Byte.eqb c x00); simpl; [lia|]. apply IH in Hi. lia.
Qed.

(** An array of at most [n] bytes whose byte [n - 1] has been set to NUL
    holds a string of fewer than [n] bytes. *)
Lemma c_str_terminated (a : list byte) n :
  (length a <= n)%nat ->
  (length (c_str (<[(n - 1)%nat := x00]> a)) <= n - 1)%nat.
Proof.
  intros Hlen. destruct (decide (length a <= n - 1)%nat) as [Hshort|Hfull].
  - etrans; [apply c_str_length|]. by rewrite length_insert.
  - apply c_str_until. apply list_lookup_insert_eq. lia.
Qed.

Lemma cstr_app (a b : string) : cstr (a ++ b) = cstr a ++ cstr b.
Proof.
  unfold cstr. induction a as [|c a IH]; simpl; [done|].
  unfold list_byte_of_string in *. simpl. by rewrite IH.
Qed.

(** Cutting an array short cuts the string it holds. *)
Lemma c_str_take (a : list byte) k : c_str (take k a) = take k (c_str a).
Proof.
  revert k. induction a as [|c a IH]; intros [|k]; simpl; try done.
  destruct (Byte.eqb c x00); simpl; [done|]. by rewrite IH.
Qed.

End Strings.

(** ** Exchanges *)

Section Exchange.

Context (hd : headers) (E : env).

Lemma grows_bytes_written (p : event -> bool) t t' :
  (forall e, p e = true -> is_write e = false) ->
  grows p t t' -> bytes_written t' = bytes_written t.
Proof.
  intros Hp (d & -> & Hd). rewrite bytes_written_app.
  enough (bytes_written d = []) as -> by apply app_nil_r.
  induction Hd as [|e d He _ IH]; [done|].
  unfold bytes_written in *. simpl. rewrite IH, app_nil_r.
  specialize (Hp e He). by destruct e.
Qed.

Lemma grows_bytes_received (p : event -> bool) t t' :
  (forall e, p e = true -> is_read e = false) ->
  grows p t t' -> bytes_received t' = bytes_received t.
Proof.
  intros Hp (d & -> & Hd). rewrite bytes_received_app.
  enough (bytes_received d = []) as -> by apply app_nil_r.
  induction Hd as [|e d He _ IH]; [done|].
  unfold bytes_received in *. simpl. rewrite IH, app_nil_r.
  specialize (Hp e He). by destruct e.
Qed.

Lemma grows_raised (p : event -> bool) t t' :
  (forall e, p e = true -> is_raise e = false) ->
  grows p t t' -> raised t' = raised t.
Proof.
  intros Hp (d & -> & Hd). rewrite raised_app.
  enough (raised d = []) as -> by apply app_nil_r.
  induction Hd as [|e d He _ IH]; [done|].
  change (e :: d) with ([e] ++ d). rewrite raised_app, IH, app_nil_r.
  specialize (Hp e He). by destruct e.
Qed.

(** The request that a successful exchange has put on the wire. *)
Lemma exchange_sent conn dom req reply t reply' t' :
  qemuProcessRequest hd E conn dom req reply t = (0, reply', t') ->
  bytes_written t' = bytes_written t ++ take (outLeft hd req) req.
Proof.
  unfold qemuProcessRequest.
  pose proof (write_loop_written E (qemud_fd conn)
                (take (outLeft hd req) req) t) as Hw.
  destruct (write_loop _ _ _ _) as [w t1] eqn:Hwl.
  destruct w; [|by intros [=]].
  destruct Hw as (gone & rest & Hout & Hwritten & Hall).
  assert (rest = []) as -> by by apply Hall. rewrite app_nil_r in Hout.
  subst gone.
  destruct (read_loop _ _ _ _ _ t1) as [[h reply1] t2] eqn:Hhl.
  destruct h; [|by intros [=]].
  case_decide; [by intros [=]|].
  destruct (read_loop _ _ _ _ _ t2) as [[b reply2] t3] eqn:Hbl.
  destruct b; [|by intros [=]].
  case_decide; [destruct (qemuPacketError _ _ _ _ _); by intros [=]|].
  intros [= <- <-].
  apply read_loop_spec in Hhl as [Hhl _], Hbl as [Hbl _].
  rewrite (grows_bytes_written is_read t2 t3),
    (grows_bytes_written is_read t1 t2), Hwritten; try done; by intros [].
Qed.


Lemma qemuError_raises con dom error info t :
  let t' := qemuError hd con dom error info t in
  bytes_read t' = bytes_read t /\
  (raised t' = raised t \/ exists e, raised t' = raised t ++ [e]).
Proof.
  unfold qemuError. case_decide; simpl; [by split; [|left]|].
  rewrite bytes_read_app, raised_app. simpl. split; [lia|]. right. eauto.
Qed.

(** The message of a failure packet, once terminated, is shorter than its
    array. *)
Lemma failure_info_length pkt m :
  failure_info hd (terminate_failure_message hd pkt) = Some m ->
  (length m <= QEMUD_MAX_ERROR_LEN hd - 1)%nat /\ x00 ∉ m.
Proof.
  unfold failure_info, terminate_failure_message.
  destruct (decide (byte_at pkt _ = 0)) as [Hempty|Hfull].
  { by rewrite decide_True by done. }
  case_decide; [done|]. intros [= <-]. split; [|apply c_str_no_nul].
  unfold load_bytes, store_bytes. simpl.
  set (message := offsetof hd failureReply_message).
  set (n := QEMUD_MAX_ERROR_LEN hd).
  destruct (decide (message + n <= length pkt)%nat) as [Hin|Hout].
  - destruct (decide (n = 0)%nat) as [->|Hn]; [by rewrite take_0|].
    apply c_str_until. rewrite lookup_take_lt by lia.
    rewrite lookup_drop. apply list_lookup_insert_eq. lia.
  - etrans; [apply c_str_length|].
    rewrite length_take, length_drop, length_insert. lia.
Qed.



End Exchange.

(** ** Connecting, whatever the outside world answers *)

Section Connecting.

Context (hd : headers) (E : env).

Lemma opened_app (t d : trace) : opened (t ++ d) = opened t ++ opened d.
Proof. apply omap_app. Qed.

Lemma closed_app (t d : trace) : closed (t ++ d) = closed t ++ closed d.
Proof. apply omap_app. Qed.

(** A round that ends the loop: the goal is settled by evaluation. *)
Ltac one_attempt :=
  simpl; repeat case_decide; try lia;
  repeat split; try lia; try done; try apply prefix_nil;
  try (by repeat constructor);
  first [left; repeat split; (lia || done)
        |right; repeat split; (lia || done)].

(** What a run of the retry loop with [n] starts of the daemon still
    allowed adds to the trace. *)
Lemma retry_trace conn path autostart (n : nat) :
  forall trials t,
  n = Z.to_nat (3 - trials) ->
  exists r conn' d,
    qemuOpenClientUNIX_retry hd E conn path autostart trials t
    = (r, conn', t ++ d) /\
    (1 <= count is_socket d <= S (count is_fork d))%nat /\
    (count is_fork d <= if decide (autostart = 0)%Z then 0 else n)%nat /\
    sleeps d
      `prefix_of` ((fun k => 5000 * k * k)
                   <$> seqZ (trials + 1) (Z.of_nat n)) /\
    Forall (eq (sun_path_of hd path)) (connects d) /\
    raised d = [] /\
    ((r = 0 /\ 0 <= qemud_fd conn' /\ opened d = closed d ++ [qemud_fd conn'])
     \/ (r = -1 /\ conn' = conn /\ opened d = closed d)).
Proof.
  induction n as [|n IH]; intros trials t Hn;
    rewrite qemuOpenClientUNIX_retry_equation_1; cbv zeta.
  all: destruct (decide (env_socket E t < 0)) as [Hfd|Hfd];
    [exists (-1), conn, [EvSocket (env_socket E t)]; one_attempt|].
  all: destruct (decide (env_connect E _ _ _ < 0)) as [Hr|Hr];
    [|rewrite <- !app_assoc; eexists 0, _, _; split; [done|]; one_attempt].
  all: destruct (decide (autostart <> 0 /\ trials < 3))
    as [[Hauto Htrials]|Hno];
    [|rewrite <- !app_assoc; eexists (-1), _, _; split; [done|]; one_attempt].
  { lia. }
  unfold qemuForkServer.
  destruct (qemuFindServerPath hd E _) as [proxyPath|]; simpl;
    [|rewrite <- !app_assoc; eexists (-1), _, _; split; [done|]; one_attempt].
  match goal with |- context [qemuOpenClientUNIX_retry _ _ _ _ _ _ ?t5] =>
    destruct (IH (trials + 1) t5)
      as (r & conn' & d & -> & Hcount & Hfork & Hsleeps & Haddr & Hquiet
          & Hfds);
      [lia|]
  end.
  rewrite <- !app_assoc. simpl.
  eexists r, conn', _. split; [done|].
  destruct (decide (autostart = 0)) as [?|_]; [done|].
  simpl. rewrite decide_False by done. simpl.
  unfold count in *. repeat split; try lia.
  - rewrite (seqZ_cons (trials + 1)) by lia. simpl.
    apply prefix_cons.
    replace (Z.succ (trials + 1)) with (trials + 1 + 1) by lia.
    by replace (Z.pred (Z.of_nat (S n))) with (Z.of_nat n) by lia.
  - by constructor.
  - done.
  - destruct Hfds as [(-> & Hfd' & ->)|(-> & -> & ->)]; [by left|by right].
Qed.

Lemma starts_app (t d : trace) : starts (t ++ d) = starts t ++ starts d.
Proof. apply omap_app. Qed.

Lemma qemuForkServer_starts t :
  (exists p,
     server_path hd E p /\
     qemuForkServer hd E t = (0, t ++ [EvForkServer (Some p)])) \/
  qemuForkServer hd E t = (-1, t ++ [EvForkServer None]).
Proof.
  unfold qemuForkServer, qemuFindServerPath.
  destruct (env_getenv E t _) as [debugQemu|] eqn:Henv.
  - left. exists debugQemu. split; [|done]. left. eauto.
  - destruct (List.find _ _) as [p|] eqn:Hfind; [|by right].
    left. exists p. split; [|done]. right.
    apply List.find_some in Hfind as [Hin Haccess].
    split; [by apply list_elem_of_In|eauto].
Qed.

(** The daemons that a run of the retry loop starts. *)
Lemma retry_starts conn path autostart (n : nat) :
  forall trials t,
  n = Z.to_nat (3 - trials) ->
  exists r conn' d ps,
    qemuOpenClientUNIX_retry hd E conn path autostart trials t
    = (r, conn', t ++ d) /\
    Forall (server_path hd E) ps /\
    (starts d = Some <$> ps \/
     r = -1 /\ starts d = (Some <$> ps) ++ [None]).
Proof.
  induction n as [|n IH]; intros trials t Hn;
    rewrite qemuOpenClientUNIX_retry_equation_1; cbv zeta.
  all: destruct (decide (env_socket E t < 0)) as [Hfd|Hfd];
    [exists (-1), conn, [EvSocket (env_socket E t)], []; by auto|].
  all: destruct (decide (env_connect E _ _ _ < 0)) as [Hr|Hr];
    [|rewrite <- !app_assoc; eexists 0, _, _, []; by auto].
  all: destruct (decide (autostart <> 0 /\ trials < 3))
    as [[Hauto Htrials]|Hno];
    [|rewrite <- !app_assoc; eexists (-1), _, _, []; by auto].
  { lia. }
  match goal with |- context [qemuForkServer hd E ?t3] =>
    destruct (qemuForkServer_starts t3) as [(p & Hp & ->)| ->]
  end; simpl.
  - match goal with |- context [qemuOpenClientUNIX_retry _ _ _ _ _ _ ?t5] =>
      destruct (IH (trials + 1) t5) as (r & conn' & d & ps & -> & Hps & Hd);
        [lia|]
    end.
    rewrite <- !app_assoc. eexists r, conn', _, (p :: ps).
    split; [done|]. split; [by constructor|].
    rewrite !starts_app. simpl.
    destruct Hd as [->|[-> ->]]; [by left|by right].
  - rewrite <- !app_assoc. eexists (-1), _, _, []. by auto.
Qed.

(** What a call of [qemuOpenClientUNIX] adds to the trace. *)
Lemma connect_summary conn path autostart t :
  exists r conn' d,
    qemuOpenClientUNIX hd E conn path autostart t = (r, conn', t ++ d) /\
    (1 <= count is_socket d)%nat /\
    Forall (eq (sun_path_of hd path)) (connects d) /\
    raised d = [] /\
    ((r = 0 /\ 0 <= qemud_fd conn' /\ opened d = closed d ++ [qemud_fd conn'])
     \/ (r = -1 /\ conn' = conn /\ opened d = closed d)).
Proof.
  unfold qemuOpenClientUNIX.
  destruct (retry_trace conn path autostart 3 0 t)
    as (r & conn' & d & Hret & Hcount & _ & _ & Haddr & Hquiet & Hfds);
    [done|].
  exists r, conn', d. repeat split; (done || lia).
Qed.

(** The address does not depend on what follows the first
    [sizeof(addr.sun_path) - 1] bytes of the path. *)
Lemma sun_path_of_take path k :
  (sizeof_sun_path hd <= k)%nat ->
  sun_path_of hd (take (k - 1) path) = sun_path_of hd path.
Proof.
  intros Hk. unfold sun_path_of. rewrite take_take.
  by replace ((sizeof_sun_path hd - 1) `min` (k - 1))%nat
    with (sizeof_sun_path hd - 1)%nat by lia.
Qed.

(** X5: whatever the outside world answers, [qemuOpenClientUNIX] creates
    at least one socket and at most one more than the number of its calls
    of [qemuForkServer], calls it at most three times, and not at all
    when [autostart] is 0, and sleeps 5000, 20000 and 45000 microseconds,
    in this order, or a first part of them: it comes back after at most
    four attempts and 70 ms of sleep. *)
Theorem connect_attempts_bounded conn path autostart t :
  let '(_, _, t') := qemuOpenClientUNIX hd E conn path autostart t in
  exists d,
    t' = t ++ d /\
    (1 <= count is_socket d <= S (count is_fork d))%nat /\
    (count is_fork d <= if decide (autostart = 0)%Z then 0 else 3)%nat /\
    sleeps d `prefix_of` [5000; 20000; 45000].
Proof.
  unfold qemuOpenClientUNIX.
  destruct (retry_trace conn path autostart 3 0 t)
    as (r & conn' & d & -> & Hsockets & Hforks & Hsleeps & _); [done|].
  exists d. by repeat split; try lia.
Qed.


(** X23: the only executables that [qemuOpenClientUNIX] starts are those
    that [qemuFindServerPath] hands out: the value of the environment
    variable [LIBVIRT_QEMU_SERVER], taken as it is, or else one of
    [libvirt_qemu] and [libvirt_qemu_dbg] in [BINDIR] that was found
    accessible.  When none is found nothing is started and the function
    gives up at once with -1. *)
Theorem connect_starts_only_the_daemon conn path autostart t :
  let '(r, _, t') := qemuOpenClientUNIX hd E conn path autostart t in
  exists d ps,
    t' = t ++ d /\
    Forall (server_path hd E) ps /\
    (starts d = Some <$> ps \/
     r = -1 /\ starts d = (Some <$> ps) ++ [None]).
Proof.
  unfold qemuOpenClientUNIX.
  destruct (retry_starts conn path autostart 3 0 t)
    as (r & conn' & d & ps & -> & Hps & Hd); [done|].
  by exists d, ps.
Qed.

Lemma sun_path_of_head path :
  head (sun_path_of hd path) <> Some "@"%byte.
Proof.
  unfold sun_path_of. destruct (take _ path) as [|c rest]; [done|].
  destruct (Byte.eqb c "@") eqn:Hc; simpl; [done|].
  intros [= ->]. by apply Byte.eqb_false in Hc.
Qed.

(** X7: every [connect] of [qemuOpenClientUNIX] is to the same address,
    the first [sizeof(addr.sun_path) - 1] bytes of the path, with a
    leading '@' turned into a NUL byte, the mark of an abstract socket: no
    address starts with '@'. *)
Theorem connect_address conn path autostart t :
  let '(_, _, t') := qemuOpenClientUNIX hd E conn path autostart t in
  let addr := sun_path_of hd path in
  let name := take (sizeof_sun_path hd - 1) path in
  exists d,
    t' = t ++ d /\
    Forall (eq addr) (connects d) /\
    (addr = name \/
     exists rest, name = "@"%byte :: rest /\ addr = x00 :: rest) /\
    head addr <> Some "@"%byte.
Proof.
  unfold qemuOpenClientUNIX.
  destruct (retry_trace conn path autostart 3 0 t)
    as (r & conn' & d & -> & _ & _ & _ & Haddr & _ & _); [done|].
  exists d. split; [done|]. split; [done|].
  split; [|apply sun_path_of_head].
  unfold sun_path_of. destruct (take _ path) as [|c rest]; [by left|].
  destruct (Byte.eqb c "@") eqn:Hc; [|by left].
  apply Byte.byte_dec_bl in Hc as ->. right. by exists rest.
Qed.

End Connecting.

(** ** Listings, whatever the daemon answers *)

Section Listings.

Context (hd : headers) (E : env).

Lemma to_int_range z : - 2 ^ 31 <= to_int z < 2 ^ 31.
Proof.
  unfold to_int. change (2 ^ 31) with 2147483648.
  change (2 ^ 32) with 4294967296. Z.div_mod_to_equations. lia.
Qed.

Lemma name_at_length reply f i :
  (length (name_at hd reply f i) <= QEMUD_MAX_NAME_LEN hd - 1)%nat /\
  x00 ∉ name_at hd reply f i.
Proof.
  split; [|apply c_str_no_nul]. apply c_str_terminated.
  unfold load_bytes. rewrite length_take. lia.
Qed.

(** The copy loop over the first [n] entries of an array with room for
    them. *)
Lemma fill_within {A : Type} (P : A -> Prop) (elem : nat -> A) n arr cap :
  (forall i, P (elem i)) ->
  n <= cap ->
  n <= Z.of_nat (length arr) ->
  kept_within P arr cap
    match fill elem (Z.to_nat n) 0 arr with
    | Returns out => Returns (n, out)
    | Overrun => Overrun
    end.
Proof.
  intros Helem Hcap Hroom. rewrite fill_spec by (simpl; lia). simpl.
  eexists _, _. split; [done|]. split; [by right|].
  assert (length (map elem (seq 0 (Z.to_nat n))) = Z.to_nat n) as Hlen
    by by rewrite length_map, length_seq.
  repeat split.
  - rewrite length_app, Hlen, length_drop. lia.
  - rewrite take_app_length' by done.
    clear Hlen. induction (seq 0 (Z.to_nat n)); simpl; constructor; auto.
  - by rewrite drop_app_length' by done.
Qed.

Lemma untouched_within {A : Type} (P : A -> Prop) (arr : list A) cap :
  kept_within P arr cap (Returns (-1, arr)).
Proof. exists (-1), arr. repeat split; auto. Qed.



End Listings.

(** ** Requests on the wire *)

Section Requests.

Context (hd : headers) (E : env).

Lemma exchange_returns conn dom req reply t r reply' t' :
  qemuProcessRequest hd E conn dom req reply t = (r, reply', t') ->
  r = 0 \/ r = -1.
Proof.
  unfold qemuProcessRequest.
  destruct (write_loop _ _ _ _) as [[] t1]; [|intros [= <- _ _]; by right].
  destruct (read_loop _ _ _ _ _ t1) as [[[] reply1] t2];
    [|intros [= <- _ _]; by right].
  case_decide; [intros [= <- _ _]; by right|].
  destruct (read_loop _ _ _ _ _ t2) as [[[] reply2] t3];
    [|intros [= <- _ _]; by right].
  case_decide; [|intros [= <- _ _]; by left].
  destruct (qemuPacketError _ _ _ _ _). intros [= <- _ _]. by right.
Qed.

Lemma load_u32_take (p : packet) n off :
  (off + 4 <= n)%nat -> load_u32 (take n p) off = load_u32 p off.
Proof.
  intros Hoff. unfold load_u32, byte_at. by rewrite !lookup_take_lt by lia.
Qed.

Lemma load_bytes_take (p : packet) n off k :
  (off + k <= n)%nat -> load_bytes (take n p) off k = load_bytes p off k.
Proof.
  intros Hoff. unfold load_bytes. apply list_eq. intros i.
  destruct (decide (i < k)%nat).
  - rewrite !lookup_take_lt, !lookup_drop by done.
    by rewrite lookup_take_lt by lia.
  - by rewrite !lookup_take_ge by lia.
Qed.

Lemma load_bytes_store_bytes (p : packet) off bs :
  (off + length bs <= length p)%nat ->
  load_bytes (store_bytes p off bs) off (length bs) = bs.
Proof.
  intros Hin. unfold load_bytes, store_bytes. apply list_eq. intros i.
  destruct (decide (i < length bs)%nat).
  - rewrite lookup_take_lt, lookup_drop by done.
    rewrite list_lookup_inserts by lia. f_equal. lia.
  - rewrite lookup_take_ge by lia. symmetry. apply lookup_ge_None_2. lia.
Qed.

(** A store into a member of the union leaves the header alone. *)
Lemma load_header_store (p : packet) f k bs h :
  f <> header_type -> f <> header_dataSize ->
  (h + 4 <= sizeof_header hd)%nat ->
  load_u32 (store_bytes p (offsetof hd f + k) bs) h = load_u32 p h.
Proof.
  intros Hty Hsize Hh. apply load_u32_store_apart.
  pose proof (members_after_header hd f Hty Hsize). lia.
Qed.

(** What a successful exchange has sent of a request that declares [size]
    bytes of payload. *)
Lemma request_sent conn dom (req : packet) reply t reply' t' (size : nat) :
  (size <= sizeof_data hd)%nat ->
  load_u32 req (offsetof hd header_dataSize) = Z.of_nat size ->
  qemuProcessRequest hd E conn dom req reply t = (0, reply', t') ->
  bytes_written t' = bytes_written t ++ take (sizeof_header hd + size) req.
Proof.
  intros Hfit Hsize Hreq. rewrite (exchange_sent hd E _ _ _ _ _ _ _ Hreq).
  unfold outLeft. rewrite Hsize. pose proof (packet_fits_int hd).
  do 2 f_equal. unfold to_int. rewrite Z.mod_small by lia. lia.
Qed.

(** The request that carries a document, as [qemuDomainCreateLinux] and
    [qemuDomainDefineXML] build it. *)
Lemma document_request ty s f (xml : cstring) (req : packet) :
  f <> header_type -> f <> header_dataSize ->
  (offsetof hd f + QEMUD_MAX_XML_LEN hd
   <= sizeof_header hd + sizeof_request hd s)%nat ->
  strcpy (set_header hd (auto_req hd E) ty (sizeof_request hd s))
    (offsetof hd f) (QEMUD_MAX_XML_LEN hd) xml = Returns req ->
  let req' :=
    store_bytes req (offsetof hd f + (QEMUD_MAX_XML_LEN hd - 1)) [x00] in
  let sent := take (sizeof_header hd + sizeof_request hd s) req' in
  load_u32 req' (offsetof hd header_dataSize)
  = Z.of_nat (sizeof_request hd s) /\
  length sent = (sizeof_header hd + sizeof_request hd s)%nat /\
  load_u32 sent (offsetof hd header_type) = pkt_code hd ty /\
  load_u32 sent (offsetof hd header_dataSize)
  = Z.of_nat (sizeof_request hd s) /\
  load_bytes sent (offsetof hd f) (length xml + 1) = xml ++ [x00].
Proof.
  intros Hty Hsize Hinside. unfold strcpy.
  case_decide as Hlen; [|done]. intros [= <-]. cbv zeta.
  set (req' := store_bytes _ _ [x00]). set (sent := take _ req').
  pose proof (requests_fit hd s) as Hfit.
  destruct (set_header_fields hd (auto_req hd E) ty (sizeof_request hd s))
    as (Htype & Hdata & Hpacket); [apply length_resize|done|].
  pose proof (header_type_inside hd). pose proof (header_dataSize_inside hd).
  assert (length req' = sizeof_packet hd) as Hreq'
    by (subst req'; by rewrite !length_store_bytes).
  unfold sizeof_packet in *.
  assert (load_u32 req' (offsetof hd header_dataSize)
          = Z.of_nat (sizeof_request hd s)) as Hdata'.
  { subst req'. rewrite load_header_store by done.
    rewrite <- (Nat.add_0_r (offsetof hd f)).
    by rewrite load_header_store by done. }
  split; [done|]. split; [|split; [|split]].
  - subst sent. rewrite length_take. lia.
  - subst sent req'. rewrite load_u32_take by lia.
    rewrite load_header_store by done.
    rewrite <- (Nat.add_0_r (offsetof hd f)).
    by rewrite load_header_store by done.
  - subst sent. by rewrite load_u32_take by lia.
  - subst sent. rewrite load_bytes_take by lia.
    subst req'. unfold load_bytes, store_bytes. simpl.
    apply list_eq. intros i.
    destruct (decide (i < length xml + 1)%nat) as [Hi|Hi].
    + rewrite lookup_take_lt, lookup_drop by done.
      destruct (decide (i = QEMUD_MAX_XML_LEN hd - 1)%nat) as [->|Hlast].
      * rewrite list_lookup_insert_eq
          by (rewrite length_inserts; lia).
        assert (length xml = QEMUD_MAX_XML_LEN hd - 1)%nat as <- by lia.
        by rewrite lookup_app_r, Nat.sub_diag by lia.
      * rewrite list_lookup_insert_ne by lia.
        rewrite list_lookup_inserts by (rewrite ?length_app; simpl; lia).
        f_equal. lia.
    + rewrite lookup_take_ge by lia. symmetry. apply lookup_ge_None_2.
      rewrite length_app. simpl. lia.
Qed.

Lemma bytes_written_get_domain t name uuid ok :
  bytes_written (t ++ [EvGetDomain name uuid ok]) = bytes_written t.
Proof. rewrite bytes_written_app. apply app_nil_r. Qed.


(** The request that names a domain or a network by its UUID. *)
Lemma uuid_request_fields ty s f (uuid : list byte) :
  f <> header_type -> f <> header_dataSize ->
  (offsetof hd f + QEMUD_UUID_RAW_LEN hd
   <= sizeof_header hd + sizeof_request hd s)%nat ->
  length uuid = QEMUD_UUID_RAW_LEN hd ->
  let req := uuid_request hd E ty s f uuid in
  load_u32 req (offsetof hd header_dataSize)
  = Z.of_nat (sizeof_request hd s) /\
  request_with hd ty s f uuid
    (take (sizeof_header hd + sizeof_request hd s) req).
Proof.
  intros Hty Hsize Hinside Hlen req. subst req. unfold uuid_request.
  pose proof (requests_fit hd s) as Hfit.
  destruct (set_header_fields hd (auto_req hd E) ty (sizeof_request hd s))
    as (Htype & Hdata & Hpacket); [apply length_resize|done|].
  pose proof (header_type_inside hd). pose proof (header_dataSize_inside hd).
  unfold sizeof_packet in *.
  assert (forall (p : packet) bs h,
            (h + 4 <= sizeof_header hd)%nat ->
            load_u32 (store_bytes p (offsetof hd f) bs) h = load_u32 p h)
    as Hkeep.
  { intros p bs h Hh. rewrite <- (Nat.add_0_r (offsetof hd f)).
    by apply load_header_store. }
  unfold request_with.
  rewrite !load_u32_take, !Hkeep by lia.
  split; [done|]. split; [|split; [done|split; [done|]]].
  - rewrite length_take, length_store_bytes. lia.
  - rewrite load_bytes_take by lia.
    rewrite take_ge by lia.
    apply load_bytes_store_bytes. lia.
Qed.


End Requests.

(** ** Opening and closing a connection *)

Section Opens.

Context (hd : headers) (oh : open_headers hd) (E : env) (Sy : system).

(** What [snprintf] leaves in [path] is as good as its whole output, as
    far as the address of the socket goes. *)
Lemma sun_path_of_snprintf (s : cstring) :
  strlen s < 2 ^ 31 ->
  sun_path_of hd (snprintf_path hd oh Sy s).2 = sun_path_of hd (c_str s).
Proof.
  intros Hs. unfold snprintf_path. rewrite decide_True by done. simpl.
  rewrite c_str_take. apply sun_path_of_take, sun_path_fits.
Qed.

Lemma snprintf_path_returns (s : cstring) :
  strlen s < 2 ^ 31 -> (snprintf_path hd oh Sy s).1 = strlen s.
Proof. intros Hs. unfold snprintf_path. by rewrite decide_True by done. Qed.

(** [qemuOpenConnection] on a URI that has a path. *)
Lemma qemuOpenConnection_summary conn uri readonly t :
  uri_path uri <> None ->
  exists r conn' d,
    qemuOpenConnection hd oh E Sy conn uri readonly t
    = Behaves (r, conn', t ++ d) /\
    raised d = [] /\
    ((0 <= qemud_fd conn' /\ opened d = closed d ++ [qemud_fd conn'])
     \/ (conn' = conn /\ opened d = closed d)).
Proof.
  intros Hpath. unfold qemuOpenConnection.
  assert (exists r conn' d,
            Behaves (-1, conn, t) = Behaves (r, conn', t ++ d) /\
            raised d = [] /\
            ((0 <= qemud_fd conn' /\ opened d = closed d ++ [qemud_fd conn'])
             \/ (conn' = conn /\ opened d = closed d))) as Hnothing.
  { exists (-1), conn, []. rewrite app_nil_r. auto. }
  assert (forall path,
            exists r conn' d,
              Behaves (qemuOpenClientUNIX hd E conn path 1 t)
              = Behaves (r, conn', t ++ d) /\
              raised d = [] /\
              ((0 <= qemud_fd conn' /\
                opened d = closed d ++ [qemud_fd conn'])
               \/ (conn' = conn /\ opened d = closed d))) as Hconnect.
  { intros path.
    destruct (connect_summary hd E conn path 1 t)
      as (r & conn' & d & -> & _ & _ & Hquiet & Hfds).
    exists r, conn', d. split; [done|]. split; [done|].
    destruct Hfds as [(_ & ? & ?)|(_ & ? & ?)]; auto. }
  destruct (uri_server uri); [done|].
  destruct (uri_path uri) as [p|]; [|done].
  repeat case_decide; try done;
    repeat match goal with
           | |- context [snprintf_path ?h ?o ?s ?x] =>
               destruct (snprintf_path h o s x)
           | |- context [sys_getpwuid ?s ?t ?u] =>
               destruct (sys_getpwuid s t u)
           end;
    repeat case_decide; done.
Qed.

(** What a call of [qemuOpen] returns and adds to the trace. *)
Lemma qemuOpen_summary conn name flags t :
  exists r conn' d,
    qemuOpen hd oh E Sy conn name flags t = Behaves (r, conn', t ++ d) /\
    ((r = 0 /\ 0 <= qemud_fd conn' /\
      opened d = closed d ++ [qemud_fd conn'])
     \/ (r = -1 /\ (conn' = conn \/ qemud_fd conn' = -1) /\
         opened d = closed d)) /\
    (length (raised d) <= 1)%nat.
Proof.
  unfold qemuOpen.
  assert (forall d,
            opened d = [] -> closed d = [] -> (length (raised d) <= 1)%nat ->
            exists r conn' d0,
              Behaves (-1, conn, t ++ d) = Behaves (r, conn', t ++ d0) /\
              ((r = 0 /\ 0 <= qemud_fd conn' /\
                opened d0 = closed d0 ++ [qemud_fd conn'])
               \/ (r = -1 /\ (conn' = conn \/ qemud_fd conn' = -1) /\
                   opened d0 = closed d0)) /\
              (length (raised d0) <= 1)%nat) as Hdeclined.
  { intros d Hopened Hclosed Hraised. exists (-1), conn, d.
    split; [done|]. split; [|done]. right. rewrite Hopened, Hclosed. auto. }
  pose proof (Hdeclined [] eq_refl eq_refl ltac:(simpl; lia)) as Hnothing.
  rewrite app_nil_r in Hnothing.
  destruct name as [name|]; [|done].
  destruct (sys_xmlParseURI Sy name) as [uri|].
  - case_decide as Hforeign; [done|].
    assert (uri_path uri <> None) as Hpath by tauto.
    destruct (qemuOpenConnection_summary {| qemud_fd := -1 |} uri
                (if decide (Z.land flags (VIR_DRV_OPEN_RO oh) <> 0)
                 then 1 else 0) t Hpath)
      as (r & conn' & d & -> & Hquiet & Hfds).
    destruct Hfds as [[Hfd Hopened]|[-> Hopened]].
    + rewrite decide_False by lia. exists 0, conn', d.
      rewrite Hquiet. simpl. split; [done|]. split; [|lia]. left. auto.
    + rewrite decide_True by (simpl; lia).
      exists (-1), {| qemud_fd := -1 |}, d.
      rewrite Hquiet. simpl. split; [done|]. split; [|lia]. right. auto.
  - unfold qemuError. repeat case_decide; try done. by apply Hdeclined.
Qed.

(** X13: [qemuOpen] never hands a null pointer to [strcmp].  It returns
    0 or -1.  When it returns 0 the connection holds the descriptor, not
    negative, of the last socket it created, and every other socket it
    created is closed again; when it returns -1 every socket it created
    is closed again and the connection is as it was or holds -1 as its
    descriptor.  It raises at most one error. *)
Theorem open_result conn name flags t :
  match qemuOpen hd oh E Sy conn name flags t with
  | NullDereference => False
  | Behaves (r, conn', t') =>
      exists d,
        t' = t ++ d /\
        (length (raised d) <= 1)%nat /\
        ((r = 0 /\ 0 <= qemud_fd conn' /\
          opened d = closed d ++ [qemud_fd conn'])
         \/ (r = -1 /\ (conn' = conn \/ qemud_fd conn' = -1) /\
             opened d = closed d))
  end.
Proof.
  destruct (qemuOpen_summary conn name flags t)
    as (r & conn' & d & -> & Hfds & Hraised).
  by exists d.
Qed.

(** X14: [qemuOpen] declines a name that is not for it, that is, NULL, a
    name that does not parse, or a URI whose scheme is not [qemu] or that
    has no path: it returns -1 without a system call and leaves the
    connection as it was.  It raises an error, [VIR_ERR_NO_SUPPORT] with
    the name, exactly when the name does not parse and the flag
    [VIR_DRV_OPEN_QUIET] is not set. *)
Theorem open_declines conn name flags t :
  (forall n uri,
     name = Some n -> sys_xmlParseURI Sy n = Some uri ->
     uri_scheme uri <> Some (cstr "qemu") \/ uri_path uri = None) ->
  let unparsable :=
    match name ≫= sys_xmlParseURI Sy, name with
    | None, Some _ => true
    | _, _ => false
    end in
  qemuOpen hd oh E Sy conn name flags t
  = Behaves
      (-1, conn,
       t ++ if unparsable
               && bool_decide (Z.land flags (VIR_DRV_OPEN_QUIET oh) = 0)
            then [EvRaiseError (VIR_ERR_NO_SUPPORT oh) name]
            else []).
Proof.
  intros Hforeign. unfold qemuOpen. destruct name as [n|]; simpl.
  - destruct (sys_xmlParseURI Sy n) as [uri|] eqn:Hparse; simpl.
    + rewrite decide_True by eauto. by rewrite app_nil_r.
    + unfold qemuError. rewrite (decide_False (P := _ = VIR_ERR_OK hd))
        by apply no_support_not_ok.
      case_bool_decide; [by rewrite decide_True by done|].
      rewrite decide_False by done. by rewrite app_nil_r.
  - by rewrite app_nil_r.
Qed.

(** [qemuOpen] on a [qemu] URI for which [qemuOpenConnection] gets to
    connect. *)
Lemma qemuOpen_connects conn n uri flags t path :
  sys_xmlParseURI Sy n = Some uri ->
  uri_scheme uri = Some (cstr "qemu") ->
  uri_path uri <> None ->
  qemuOpenConnection hd oh E Sy {| qemud_fd := -1 |} uri
    (if decide (Z.land flags (VIR_DRV_OPEN_RO oh) <> 0) then 1 else 0) t
  = Behaves (qemuOpenClientUNIX hd E {| qemud_fd := -1 |} path 1 t) ->
  exists r conn' d,
    qemuOpen hd oh E Sy conn (Some n) flags t = Behaves (r, conn', t ++ d) /\
    (1 <= count is_socket d)%nat /\
    Forall (eq (sun_path_of hd path)) (connects d) /\
    (r = 0 \/ r = -1).
Proof.
  intros Hparse Hscheme Hpath Hconnect. unfold qemuOpen.
  rewrite Hparse. rewrite decide_False by tauto. rewrite Hconnect.
  destruct (connect_summary hd E {| qemud_fd := -1 |} path 1 t)
    as (r & conn' & d & -> & Hcount & Haddr & _ & _).
  destruct (decide (qemud_fd conn' < 0));
    eexists _, _, _; (split; [done|]); auto.
Qed.

(** X15: for a [qemu] URI without server whose path is [/system],
    [qemuOpen] connects to the socket [run/qemud/sock] under
    [LOCAL_STATE_DIR], or to [run/qemud/sock-ro] when the flag
    [VIR_DRV_OPEN_RO] is set, provided the longer of the two paths fits
    [PATH_MAX]: at least one socket is created and every [connect] goes
    to the address made of that path. *)
Theorem open_system_address conn n uri flags t :
  sys_xmlParseURI Sy n = Some uri ->
  uri_scheme uri = Some (cstr "qemu") ->
  uri_server uri = None ->
  uri_path uri = Some (cstr "/system") ->
  strlen (cstr (LOCAL_STATE_DIR oh ++ "/run/qemud/sock-ro"))
    < Z.of_nat (PATH_MAX oh) ->
  let path :=
    cstr (LOCAL_STATE_DIR oh ++
          if decide (Z.land flags (VIR_DRV_OPEN_RO oh) <> 0)
          then "/run/qemud/sock-ro" else "/run/qemud/sock") in
  exists r conn' d,
    qemuOpen hd oh E Sy conn (Some n) flags t = Behaves (r, conn', t ++ d) /\
    (1 <= count is_socket d)%nat /\
    Forall (eq (sun_path_of hd (c_str path))) (connects d) /\
    (r = 0 \/ r = -1).
Proof.
  intros Hparse Hscheme Hserver Hpath Hfits path.
  pose proof (path_max_fits_int oh) as Hmax.
  assert (strlen path
          <= strlen (cstr (LOCAL_STATE_DIR oh ++ "/run/qemud/sock-ro")))
    as Hshorter.
  { subst path. unfold strlen. rewrite !cstr_app, !length_app.
    case_decide; simpl; lia. }
  rewrite <- (sun_path_of_snprintf path) by lia.
  apply (qemuOpen_connects conn n uri); [done|done|by rewrite Hpath|].
  unfold qemuOpenConnection. rewrite Hserver, Hpath.
  rewrite decide_True by done. subst path.
  case_decide.
  - rewrite (decide_True (P := 1 <> 0)) by done.
    destruct (snprintf_path _ _ _ _) as [len p] eqn:Hp.
    apply (f_equal fst) in Hp. simpl in Hp.
    rewrite snprintf_path_returns in Hp by lia.
    rewrite (decide_False (P := len >= _)) by lia. reflexivity.
  - rewrite (decide_False (P := 0 <> 0)) by lia.
    destruct (snprintf_path _ _ _ _) as [len p] eqn:Hp.
    apply (f_equal fst) in Hp. simpl in Hp.
    rewrite snprintf_path_returns in Hp by lia.
    rewrite (decide_False (P := len >= _)) by lia. reflexivity.
Qed.


(** X17: for a [qemu] URI without server whose path is neither [/system]
    nor [/session], [qemuOpen] still connects, and to an address that
    does not depend on the URI: it is read from the automatic array
    [path], to which nothing has been written. *)
Theorem open_unknown_path conn n uri flags t p :
  sys_xmlParseURI Sy n = Some uri ->
  uri_scheme uri = Some (cstr "qemu") ->
  uri_server uri = None ->
  uri_path uri = Some p ->
  p <> cstr "/system" ->
  p <> cstr "/session" ->
  exists r conn' d,
    qemuOpen hd oh E Sy conn (Some n) flags t = Behaves (r, conn', t ++ d) /\
    (1 <= count is_socket d)%nat /\
    Forall (eq (sun_path_of hd (auto_path hd oh Sy))) (connects d) /\
    (r = 0 \/ r = -1).
Proof.
  intros Hparse Hscheme Hserver Hpath Hsystem Hsession.
  apply (qemuOpen_connects conn n uri); [done|done|by rewrite Hpath|].
  unfold qemuOpenConnection. rewrite Hserver, Hpath.
  by rewrite !decide_False by done.
Qed.

(** X18: a [qemuClose] after a [qemuOpen] that returned 0 closes the
    descriptor that [qemuOpen] left in the connection: over the two calls
    every socket that was created has been closed, and the connection
    holds -1 as its descriptor. *)
Theorem open_then_close conn name flags t conn' t' :
  qemuOpen hd oh E Sy conn name flags t = Behaves (0, conn', t') ->
  exists d,
    t' = t ++ d /\
    qemuClose conn' t'
    = (0, {| qemud_fd := -1 |}, t ++ d ++ [EvClose (qemud_fd conn')]) /\
    opened (d ++ [EvClose (qemud_fd conn')])
    = closed (d ++ [EvClose (qemud_fd conn')]).
Proof.
  intros Hopen.
  destruct (qemuOpen_summary conn name flags t)
    as (r & conn1 & d & Hsummary & Hfds & _).
  rewrite Hsummary in Hopen. injection Hopen as -> -> <-.
  destruct Hfds as [(_ & Hfd & Hopened)|(? & _)]; [|done].
  exists d. split; [done|].
  unfold qemuClose. rewrite decide_True by lia.
  rewrite app_assoc, opened_app, closed_app, Hopened. simpl.
  by rewrite app_nil_r.
Qed.

(** X19: [qemuNetworkOpen] hands a null pointer to [strcmp] exactly when
    the connection holds a descriptor and the name parses to a URI
    without scheme.  Otherwise it returns 0 without doing anything when
    the connection holds no descriptor, and else what [qemuOpen] returns:
    0 with a new descriptor in the connection, or -1.  It closes no
    descriptor but those of the sockets it created itself, so the
    descriptor the connection had is dropped, not closed. *)
Theorem network_open_result conn name flags t :
  (qemuNetworkOpen hd oh E Sy conn name flags t = NullDereference <->
   qemud_fd conn <> -1 /\
   exists n uri,
     name = Some n /\ sys_xmlParseURI Sy n = Some uri /\
     uri_scheme uri = None) /\
  match qemuNetworkOpen hd oh E Sy conn name flags t with
  | NullDereference => True
  | Behaves (r, conn', t') =>
      exists d,
        t' = t ++ d /\
        ((r = 0 /\ qemud_fd conn = -1 /\ conn' = conn /\ d = []) \/
         (r = 0 /\ qemud_fd conn <> -1 /\ 0 <= qemud_fd conn' /\
          opened d = closed d ++ [qemud_fd conn']) \/
         (r = -1 /\ qemud_fd conn <> -1 /\
          (conn' = conn \/ qemud_fd conn' = -1) /\ opened d = closed d))
  end.
Proof.
  assert (forall name,
            qemud_fd conn <> -1 ->
            qemuOpen hd oh E Sy conn name flags t <> NullDereference /\
            match qemuOpen hd oh E Sy conn name flags t with
            | NullDereference => True
            | Behaves (r, conn', t') =>
                exists d,
                  t' = t ++ d /\
                  ((r = 0 /\ qemud_fd conn = -1 /\ conn' = conn /\ d = []) \/
                   (r = 0 /\ qemud_fd conn <> -1 /\ 0 <= qemud_fd conn' /\
                    opened d = closed d ++ [qemud_fd conn']) \/
                   (r = -1 /\ qemud_fd conn <> -1 /\
                    (conn' = conn \/ qemud_fd conn' = -1) /\
                    opened d = closed d))
            end) as Hopen.
  { intros name' Hfd.
    destruct (qemuOpen_summary conn name' flags t)
      as (r & conn' & d & -> & Hfds & _).
    split; [done|]. exists d. split; [done|].
    destruct Hfds as [(-> & ? & ?)|(-> & ? & ?)];
      [right; left; auto|right; right; auto]. }
  unfold qemuNetworkOpen.
  destruct (decide (qemud_fd conn = -1)) as [Hnone|Hfd].
  { split; [split; [done|tauto]|]. exists []. rewrite app_nil_r.
    split; [done|]. left. auto. }
  assert (forall x : behaviour (Z * virConnect * trace),
            x <> NullDereference ->
            (forall n uri,
               name = Some n -> sys_xmlParseURI Sy n = Some uri ->
               uri_scheme uri <> None) ->
            x = NullDereference <->
            qemud_fd conn <> -1 /\
            exists n uri,
              name = Some n /\ sys_xmlParseURI Sy n = Some uri /\
              uri_scheme uri = None) as Hdefined.
  { intros x Hx Hscheme. split; [done|].
    intros (_ & n & uri & Hname & Hparse & Hnull).
    by destruct (Hscheme n uri Hname Hparse). }
  destruct name as [n|].
  - change (Some n ≫= sys_xmlParseURI Sy) with (sys_xmlParseURI Sy n).
    destruct (sys_xmlParseURI Sy n) as [uri|] eqn:Hparse.
    + destruct (uri_scheme uri) as [scheme|] eqn:Hscheme.
      * destruct (decide (scheme = cstr "qemu")),
          (decide (sys_geteuid Sy t = 0));
          (split; [apply Hdefined; [by apply Hopen|]|by apply Hopen]);
          intros ? ? [= <-]; congruence.
      * split; [|done]. split; [|done]. intros _. split; [done|]. eauto.
    + destruct (decide (sys_geteuid Sy t = 0));
        (split; [apply Hdefined; [by apply Hopen|]|by apply Hopen]);
        intros ? ? [= <-]; congruence.
  - change (None ≫= sys_xmlParseURI Sy) with (@None xmlURI).
    destruct (decide (sys_geteuid Sy t = 0));
      (split; [apply Hdefined; [by apply Hopen|]|by apply Hopen]);
      intros ? ? [=].
Qed.

End Opens.

(** ** Lookups and descriptions *)

Section Found.

Context (hd : headers) (lh : lookup_headers hd) (E : env) (Sy : system).

Lemma terminated_length reply f len :
  (length (terminated hd lh reply f len) <= len - 1)%nat /\
  x00 ∉ terminated hd lh reply f len.
Proof.
  split; [|apply c_str_no_nul]. apply c_str_terminated.
  unfold load_bytes. rewrite length_take. lia.
Qed.

(** X20: the handle that a lookup returns carries the key it was looked
    up with, the id for [qemuLookupDomainByID], the UUID for
    [qemuLookupDomainByUUID] and the name for [qemuLookupDomainByName],
    whatever the reply holds in its place.  A name that comes from the
    reply has no NUL byte and is shorter than [QEMUD_MAX_NAME_LEN], an id
    that comes from the reply is a 32-bit integer.
    [qemuLookupDomainByName] never writes past the [name] member of its
    request: a name of [QEMUD_MAX_NAME_LEN] bytes or more, however long,
    is turned down before anything is sent. *)
Theorem lookups_keep_the_key conn id uuid name t :
  let is_name (s : cstring) :=
    (length s <= QEMUD_MAX_NAME_LEN hd - 1)%nat /\ x00 ∉ s in
  let is_int (z : Z) := - 2 ^ 31 <= z < 2 ^ 31 in
  from_option
    (fun d => dom_conn d = conn /\ dom_id d = id /\ is_name (dom_name d))
    True (qemuLookupDomainByID hd lh E conn id t).1 /\
  from_option
    (fun d =>
       dom_conn d = conn /\ dom_uuid d = uuid /\ is_name (dom_name d) /\
       is_int (dom_id d))
    True (qemuLookupDomainByUUID hd lh E conn uuid t).1 /\
  (exists found,
     (qemuLookupDomainByName hd lh E conn name t).1 = Returns found /\
     from_option
       (fun d =>
          dom_conn d = conn /\ dom_name d = name /\
          (length name <= QEMUD_MAX_NAME_LEN hd - 1)%nat /\
          is_int (dom_id d))
       True found) /\
  ((length name < QEMUD_MAX_NAME_LEN hd)%nat \/
   qemuLookupDomainByName hd lh E conn name t = (Returns None, t)).
Proof.
  intros is_name is_int. pose proof (name_not_empty lh) as Hname.
  unfold qemuLookupDomainByID, qemuLookupDomainByUUID,
    qemuLookupDomainByName, virGetDomain, strcpy, strlen.
  split; [|split; [|split]].
  - destruct (qemuProcessRequest _ _ _ _ _ _ _) as [[r reply] t1].
    case_decide; [done|]. destruct (env_virGetDomain E _ _ _); [|done].
    simpl. repeat split; apply terminated_length.
  - destruct (qemuProcessRequest _ _ _ _ _ _ _) as [[r reply] t1].
    case_decide; [done|]. destruct (env_virGetDomain E _ _ _); [|done].
    simpl. repeat split; try apply terminated_length; apply to_int_range.
  - case_decide as Hlong; [by exists None|].
    rewrite decide_True by lia.
    destruct (qemuProcessRequest _ _ _ _ _ _ _) as [[r reply] t1].
    case_decide; [by exists None|].
    destruct (env_virGetDomain E _ _ _); [|by exists None].
    eexists. split; [done|]. simpl.
    repeat split; try apply to_int_range; lia.
  - destruct (decide (length name < QEMUD_MAX_NAME_LEN hd)%nat);
      [by left|right].
    by rewrite decide_True by lia.
Qed.

(** X21: the description that [qemuDomainDumpXML] and
    [qemuNetworkDumpXML] hand to the caller has no NUL byte and is shorter
    than [QEMUD_MAX_XML_LEN], and the name that
    [qemuNetworkGetBridgeName] hands over is shorter than
    [QEMUD_MAX_IFNAME_LEN], whatever the daemon has sent; none of them
    raises an error or releases a handle outside the exchange, which is
    all they add to the trace. *)
Theorem descriptions_are_terminated domain network flags t :
  let bounded (len : nat) (x : option cstring * trace) :=
    from_option (fun s => (length s <= len - 1)%nat /\ x00 ∉ s) True x.1 /\
    grows is_exchange t x.2 in
  bounded (QEMUD_MAX_XML_LEN hd)
    (qemuDomainDumpXML hd lh E Sy domain flags t) /\
  bounded (QEMUD_MAX_XML_LEN hd)
    (qemuNetworkDumpXML hd lh E Sy network flags t) /\
  bounded (QEMUD_MAX_IFNAME_LEN lh)
    (qemuNetworkGetBridgeName hd lh E Sy network t).
Proof.
  intros bounded.
  assert (forall conn ty s member uuid f len,
            bounded len (described hd lh E Sy conn ty s member uuid f len t))
    as Hdescribed.
  { intros. unfold bounded, described.
    destruct (qemuProcessRequest _ _ _ _ _ _ _) as [[r reply] t1] eqn:Hx.
    apply qemuProcessRequest_grows in Hx.
    case_decide; [done|]. simpl. split; [|done].
    destruct (sys_strdup Sy t1 _); [apply terminated_length|done]. }
  repeat split; apply Hdescribed.
Qed.

End Found.

(** ** Keys of the docker configuration *)

Section Keys.

Context (jh : json_headers).

Lemma strncmp_take (a s : cstring) :
  strncmp a s (length s) = true <-> take (length s) a = s.
Proof.
  revert a. induction s as [|y s IH]; intros a; simpl.
  - by destruct a.
  - destruct a as [|x a]; simpl; [done|].
    case_decide as Hxy.
    + subst y. rewrite IH. split; [by intros ->|by intros [= ->]].
    + split; [done|]. intros [= ? _]. done.
Qed.

(** X22: for a token that lies in the text, [jsoneq] returns 0 when the
    token is a string whose text is the key, byte for byte and of the
    same length, and -1 otherwise: a key that is only the beginning of
    the text of the token, or of which that text is only the beginning,
    does not match. *)
Theorem jsoneq_exact (json : cstring) tok (s : cstring) :
  0 <= tok_start tok <= tok_end tok ->
  tok_end tok <= strlen json ->
  strlen json < 2 ^ 31 ->
  strlen s < 2 ^ 31 ->
  jsoneq jh json tok s
  = Returns
      (if decide (tok_type tok = JSON_STRING jh /\ token_text json tok = s)
       then 0 else -1).
Proof.
  intros Hstart Hend Hjson Hs. unfold jsoneq, token_text, strlen in *.
  pose proof (size_max_32 jh) as Hsize.
  destruct (decide (tok_type tok = JSON_STRING jh)) as [Hty|Hty];
    [|by rewrite decide_False by tauto].
  cbv zeta. rewrite (decide_True (P := _ <= _ < _)) by lia.
  assert (to_int (Z.of_nat (length s)) = Z.of_nat (length s)) as ->.
  { unfold to_int. rewrite Z.mod_small by lia. lia. }
  destruct (decide (Z.of_nat (length s) = tok_end tok - tok_start tok))
    as [Hlen|Hlen].
  - rewrite (decide_True (P := _ <= _ <= _)) by lia.
    rewrite <- Hlen, Z.mod_small, Nat2Z.id by lia.
    destruct (strncmp _ s (length s)) eqn:Hcmp.
    + apply strncmp_take in Hcmp. by rewrite decide_True by done.
    + rewrite decide_False; [done|]. intros [_ Htext].
      apply strncmp_take in Htext. congruence.
  - rewrite decide_False; [done|]. intros [_ Htext].
    apply (f_equal length) in Htext.
    rewrite length_take, length_drop in Htext. lia.
Qed.

End Keys.

(** * More theorems at work *)

Lemma write_loop_sends_in_order_witness :
  let E := daemon_env 2 five_of_each in
  let w := write_loop E 3 (le32 3 ++ le32 0) [] in
  w.1 = true /\
  map call_of w.2 = [CallWrite; CallWrite; CallWrite] /\
  exists gone,
    gone `prefix_of` le32 3 ++ le32 0 /\
    bytes_written w.2 = gone /\
    (true = true <-> gone = le32 3 ++ le32 0).
Proof.
  intros.
  assert (w = (true, w.2)) as Hw by computed.
  do 2 (split; [computed|]).
  exact (write_loop_sends_in_order E 3 (le32 3 ++ le32 0) [] true w.2 Hw).
Defined.

Lemma read_loop_stores_in_order_witness :
  let E := daemon_env 2 five_of_each in
  let reply := auto_reply qemud_headers E in
  let r := read_loop E 3 8 reply 0 [] in
  r.1.1 = true /\
  map call_of r.2 = [CallRead; CallRead; CallRead] /\
  exists got,
    bytes_received r.2 = got /\
    r.1.2 = store_bytes reply 0 got /\
    (length got <= 8)%nat /\
    (true = true <-> length got = 8%nat).
Proof.
  intros.
  assert (r = (true, r.1.2, r.2)) as Hr by computed.
  do 2 (split; [computed|]).
  exact (read_loop_stores_in_order E 3 8 reply 0 [] true r.1.2 r.2 Hr).
Defined.





Lemma open_declines_witness :
  let E := daemon_env 2 five_of_each in
  let conn := {| qemud_fd := 7 |} in
  (forall n uri,
     Some (cstr "xen:///") = Some n -> sys_xmlParseURI host n = Some uri ->
     uri_scheme uri <> Some (cstr "qemu") \/ uri_path uri = None) /\
  qemuOpen qemud_headers qemud_open_headers E host conn
    (Some (cstr "xen:///")) 0 []
  = Behaves (-1, conn, []).
Proof.
  intros.
  assert (forall n uri,
            Some (cstr "xen:///") = Some n ->
            sys_xmlParseURI host n = Some uri ->
            uri_scheme uri <> Some (cstr "qemu") \/ uri_path uri = None)
    as Hforeign.
  { intros n uri [= <-]. vm_compute. intros [= <-]. left. discriminate. }
  split; [exact Hforeign|].
  exact (open_declines qemud_headers qemud_open_headers E host conn
           (Some (cstr "xen:///")) 0 [] Hforeign).
Defined.

Lemma open_system_address_witness :
  let E := daemon_env 2 five_of_each in
  let conn := {| qemud_fd := 7 |} in
  qemuOpen qemud_headers qemud_open_headers E host conn
    (Some (cstr "qemu:///system")) 2 []
  = Behaves
      (0, {| qemud_fd := 3 |},
       [EvSocket 3; EvConnect 3 (cstr "/var/run/qemud/sock-ro") 0]) /\
  exists r conn' d,
    qemuOpen qemud_headers qemud_open_headers E host conn
      (Some (cstr "qemu:///system")) 2 []
    = Behaves (r, conn', d) /\
    (1 <= count is_socket d)%nat /\
    Forall (eq (sun_path_of qemud_headers
                  (c_str (cstr "/var/run/qemud/sock-ro")))) (connects d) /\
    (r = 0 \/ r = -1).
Proof.
  intros. split; [computed|].
  exact (open_system_address qemud_headers qemud_open_headers E host conn
           (cstr "qemu:///system") (qemu_uri "/system") 2 []
           ltac:(computed) ltac:(computed) ltac:(computed) ltac:(computed)
           ltac:(computed)).
Defined.


Lemma open_unknown_path_witness :
  let E := daemon_env 2 five_of_each in
  let conn := {| qemud_fd := 7 |} in
  qemuOpen qemud_headers qemud_open_headers E host conn
    (Some (cstr "qemu:///tmp")) 0 []
  = Behaves
      (0, {| qemud_fd := 3 |},
       [EvSocket 3; EvConnect 3 (cstr "left on the stack") 0]) /\
  exists r conn' d,
    qemuOpen qemud_headers qemud_open_headers E host conn
      (Some (cstr "qemu:///tmp")) 0 []
    = Behaves (r, conn', d) /\
    (1 <= count is_socket d)%nat /\
    Forall (eq (sun_path_of qemud_headers
                  (auto_path qemud_headers qemud_open_headers host)))
      (connects d) /\
    (r = 0 \/ r = -1).
Proof.
  intros. split; [computed|].
  exact (open_unknown_path qemud_headers qemud_open_headers E host conn
           (cstr "qemu:///tmp") (qemu_uri "/tmp") 0 [] (cstr "/tmp")
           ltac:(computed) ltac:(computed) ltac:(computed) ltac:(computed)
           ltac:(computed) ltac:(computed)).
Defined.

Lemma open_then_close_witness :
  let E := daemon_env 2 five_of_each in
  let conn := {| qemud_fd := 7 |} in
  let conn' := {| qemud_fd := 3 |} in
  let t' := [EvSocket 3; EvConnect 3 (cstr "/var/run/qemud/sock") 0] in
  qemuOpen qemud_headers qemud_open_headers E host conn
    (Some (cstr "qemu:///system")) 0 []
  = Behaves (0, conn', t') /\
  exists d,
    t' = d /\
    qemuClose conn' t' = (0, {| qemud_fd := -1 |}, d ++ [EvClose 3]) /\
    opened (d ++ [EvClose 3]) = closed (d ++ [EvClose 3]).
Proof.
  intros.
  assert (qemuOpen qemud_headers qemud_open_headers E host conn
            (Some (cstr "qemu:///system")) 0 []
          = Behaves (0, conn', t')) as Hopen by computed.
  split; [exact Hopen|].
  exact (open_then_close qemud_headers qemud_open_headers E host conn
           (Some (cstr "qemu:///system")) 0 [] conn' t' Hopen).
Defined.


Lemma jsoneq_exact_witness :
  let key := {| tok_type := 3; tok_start := 2; tok_end := 8 |} in
  let longer := {| tok_type := 3; tok_start := 18; tok_end := 28 |} in
  token_text docker_config key = cstr "Memory" /\
  token_text docker_config longer = cstr "MemorySwap" /\
  jsoneq json_h docker_config longer (cstr "Memory") = Returns (-1) /\
  jsoneq json_h docker_config key (cstr "Memory")
  = Returns
      (if decide (tok_type key = JSON_STRING json_h /\
                  token_text docker_config key = cstr "Memory")
       then 0 else -1).
Proof.
  intros. do 3 (split; [computed|]).
  exact (jsoneq_exact json_h docker_config key (cstr "Memory")
           ltac:(simpl; lia) ltac:(computed) ltac:(computed) ltac:(computed)).
Defined.

(** The lookups on the daemon that knows [vm0]; a name of 50 bytes is
    turned down at once. *)
Lemma lookups_at_work :
  let E := daemon_env 2 one_domain in
  let conn := {| qemud_fd := 3 |} in
  let vm0 :=
    {| dom_conn := conn; dom_name := cstr "vm0";
       dom_uuid := replicate 16 "a"%byte; dom_id := 7 |} in
  (qemuLookupDomainByID qemud_headers qemud_lookup_headers E conn 7 []).1
  = Some vm0 /\
  (qemuLookupDomainByName qemud_headers qemud_lookup_headers E conn
     (cstr "vm0") []).1
  = Returns (Some vm0) /\
  qemuLookupDomainByName qemud_headers qemud_lookup_headers E conn
    (replicate 50 "x"%byte) []
  = (Returns None, []).
Proof. computed. Qed.
